(** * limpeza_david: the Windows scanning and cleaning engine

    A shallow embedding of [app/cleaner/windows.py] (class [WindowsCleaner])
    and of the file helpers of [app/utils.py] ([get_file_size],
    [safe_remove_file], [safe_remove_dir]), together with the properties
    the specification states about them.

    Layout of the development:
    - [Str]      : the few string operations of Python the code relies on;
    - [Pathlib]  : pure Windows paths ([pathlib.PureWindowsPath]);
    - [OS]       : a model file system and the system calls made through
                   [pathlib.Path], [os] and [shutil];
    - [Utils]    : [app/utils.py];
    - [Cleaner]  : [app/cleaner/windows.py];
    - [Scenario] : concrete machines used by the examples;
    - the theorems.

    Python integers are unbounded and are modelled by [Z].  Strings are
    sequences of 8-bit characters; case folding acts on ASCII letters.
    Calls to the logger do not influence any returned value and are left
    out. *)

From Stdlib Require Import String Ascii List ZArith NArith Bool Arith Lia.
Import ListNotations.
Local Open Scope string_scope.
Local Open Scope Z_scope.

(* ===================================================================== *)
(** * Strings *)
(* ===================================================================== *)

Module Str.

(** [str.lower()] on ASCII. *)
Definition lower_ascii (c : ascii) : ascii :=
  let n := nat_of_ascii c in
  if (Nat.leb 65 n && Nat.leb n 90)%bool then ascii_of_nat (n + 32) else c.

Fixpoint lower (s : string) : string :=
  match s with
  | EmptyString => EmptyString
  | String c s' => String (lower_ascii c) (lower s')
  end.

(** [len(s)], as a Python integer. *)
Definition len (s : string) : Z := Z.of_nat (String.length s).

(** [s.rfind(c)]: the highest index of [c] in [s], or [-1]. *)
Fixpoint rfind (c : ascii) (s : string) : Z :=
  match s with
  | EmptyString => -1
  | String a s' =>
      let r := rfind c s' in
      if 0 <=? r then r + 1
      else if Ascii.eqb a c then 0 else -1
  end.

(** [s[i:]] for [0 <= i]. *)
Definition slice_from (i : Z) (s : string) : string :=
  String.substring (Z.to_nat i) (String.length s - Z.to_nat i) s.

(** [needle in hay] for strings. *)
Fixpoint contains (needle hay : string) : bool :=
  String.prefix needle hay ||
  match hay with
  | EmptyString => false
  | String _ hay' => contains needle hay'
  end.

(** [x in xs] for a collection of strings. *)
Definition mem (x : string) (xs : list string) : bool :=
  existsb (String.eqb x) xs.

(** [sep.join(parts)]. *)
Fixpoint join (sep : string) (parts : list string) : string :=
  match parts with
  | [] => ""
  | [p] => p
  | p :: rest => p ++ sep ++ join sep rest
  end.

Definition is_sep (c : ascii) : bool :=
  (Ascii.eqb c "/" || Ascii.eqb c "\")%bool.

(** Splits at every path separator ([/] or [\]); the pieces may be
    empty. *)
Fixpoint split_seps (s : string) : list string :=
  match s with
  | EmptyString => [""]
  | String c s' =>
      if is_sep c then "" :: split_seps s'
      else match split_seps s' with
           | [] => [String c ""]
           | p :: ps => String c p :: ps
           end
  end.

(** [fnmatch] restricted to the wildcards [*] and [?], which are the
    only ones the patterns of the cleaner use. *)
Fixpoint wild (pat : string) : string -> bool :=
  match pat with
  | EmptyString => fun s => match s with EmptyString => true | _ => false end
  | String "*" pat' =>
      fix star (s : string) : bool :=
        wild pat' s ||
        match s with
        | EmptyString => false
        | String _ s' => star s'
        end
  | String "?" pat' =>
      fun s => match s with
               | EmptyString => false
               | String _ s' => wild pat' s'
               end
  | String c pat' =>
      fun s => match s with
               | EmptyString => false
               | String d s' => Ascii.eqb c d && wild pat' s'
               end
  end.

(** On Windows [fnmatch] folds the case of both sides first. *)
Definition fnmatch (name pat : string) : bool :=
  wild (lower pat) (lower name).

End Str.

(* ===================================================================== *)
(** * Pure Windows paths *)
(* ===================================================================== *)

Module Pathlib.

(** A path is its anchor (drive and root, [""] for a relative path) and
    the names that follow.  [Path('')], which pathlib prints as [.], has
    an empty anchor and no name. *)
Record Path : Type := mkPath { anchor : string; names : list string }.

Definition is_drive (s : string) : bool :=
  match s with
  | String c (String ":" EmptyString) =>
      let n := nat_of_ascii (Str.lower_ascii c) in
      (Nat.leb 97 n && Nat.leb n 122)%bool
  | _ => false
  end.

Definition real_name (s : string) : bool :=
  negb (String.eqb s "" || String.eqb s ".").

(** [Path(s)]: parses [X:/a/b], [/a/b] and [a/b], with either
    separator; empty and [.] components are dropped.  UNC shares and the
    drive-relative form [X:a] are outside the model. *)
Definition parse (s : string) : Path :=
  match Str.split_seps s with
  | d :: ((_ :: _) as rest) =>
      if is_drive d then mkPath (d ++ "\") (filter real_name rest)
      else if String.eqb d "" then mkPath "\" (filter real_name rest)
      else mkPath "" (filter real_name (d :: rest))
  | [d] => if is_drive d then mkPath d [] else mkPath "" (filter real_name [d])
  | [] => mkPath "" []
  end.

(** [p / s]: a relative segment is appended, an anchored one replaces
    the path. *)
Definition joinpath (p : Path) (s : string) : Path :=
  let q := parse s in
  if String.eqb (anchor q) "" then mkPath (anchor p) (names p ++ names q)
  else q.

(** [p.name]: the final component, [''] when there is none. *)
Definition name (p : Path) : string := last (names p) "".

(** [p.suffix]:
    [i = name.rfind('.')]; [name[i:]] if [0 < i < len(name) - 1],
    else ['']. *)
Definition suffix (p : Path) : string :=
  let name := name p in
  let i := Str.rfind "." name in
  if (0 <? i) && (i <? Str.len name - 1) then Str.slice_from i name
  else "".

(** [p.parents]: the logical ancestors, nearest first. *)
Definition parents (p : Path) : list Path :=
  map (fun k => mkPath (anchor p) (firstn k (names p)))
      (rev (seq 0 (length (names p)))).

(** [str(p)]. *)
Definition str (p : Path) : string :=
  match anchor p, names p with
  | EmptyString, [] => "."
  | a, ns => a ++ Str.join "\" ns
  end.

(** Windows paths compare by their case-folded parts. *)
Definition normcase (p : Path) : Path :=
  mkPath (Str.lower (anchor p)) (map Str.lower (names p)).

Fixpoint strs_eqb (xs ys : list string) : bool :=
  match xs, ys with
  | [], [] => true
  | x :: xs', y :: ys' => String.eqb x y && strs_eqb xs' ys'
  | _, _ => false
  end.

(** [p == q]. *)
Definition path_eqb (p q : Path) : bool :=
  String.eqb (Str.lower (anchor p)) (Str.lower (anchor q)) &&
  strs_eqb (map Str.lower (names p)) (map Str.lower (names q)).

(** [q in ps] for a collection of paths. *)
Definition path_mem (q : Path) (ps : list Path) : bool :=
  existsb (path_eqb q) ps.

End Pathlib.

Import Pathlib.
Infix "</>" := joinpath (at level 40, left associativity).

(* ===================================================================== *)
(** * Exceptions and results *)
(* ===================================================================== *)

(** The exception classes that matter to the handlers of the code.  The
    first three are subclasses of [OSError]; [ValueError] is not. *)
Inductive exn : Type :=
| PermissionError
| FileNotFoundError
| NotADirectoryError
| ValueError.

Definition is_OSError (e : exn) : bool :=
  match e with
  | ValueError => false
  | _ => true
  end.

(** A call either returns a value or raises. *)
Inductive Result (A : Type) : Type :=
| Ok (a : A)
| Raise (e : exn).
Arguments Ok {A} a.
Arguments Raise {A} e.

Definition bind {A B : Type} (m : Result A) (k : A -> Result B) : Result B :=
  match m with
  | Ok a => k a
  | Raise e => Raise e
  end.

Declare Scope result_scope.
Delimit Scope result_scope with result.
Notation "x <- m ;; k" := (bind m (fun x => k))
  (at level 100, m at next level, right associativity) : result_scope.
Local Open Scope result_scope.

(** [try: m  except (OSError, PermissionError): handler]. *)
Definition except_OSError {A : Type} (m : Result A) (handler : Result A)
  : Result A :=
  match m with
  | Ok a => Ok a
  | Raise e => if is_OSError e then handler else Raise e
  end.

(** A result that raises nothing outside the [OSError] family. *)
Definition os_only {A : Type} (m : Result A) : Prop :=
  match m with
  | Ok _ => True
  | Raise e => is_OSError e = true
  end.

(* ===================================================================== *)
(** * The file system and its system calls *)
(* ===================================================================== *)

Module OS.

Inductive Kind : Type := File | Dir.

(** What the file system holds at a path.  [st_size] is the size the
    system reports, a natural number.  The flags say which calls the
    system lets through: [can_probe] for the metadata lookup made by
    [exists], [is_file] and [is_dir]; [can_stat] for the lookup made by
    [stat()] when the size is read; [can_remove] for [unlink] and
    [rmdir]; [can_list], of a directory, for the listing of its entries
    ([os.listdir], [os.scandir]).  The two lookups are separate calls and
    may fail independently (the file may be locked or replaced in
    between); a directory may be looked up and yet refuse to be
    listed. *)
Record Entry : Type := mkEntry {
  kind : Kind;
  st_size : N;
  can_probe : bool;
  can_stat : bool;
  can_remove : bool;
  can_list : bool
}.

(** The machine: the working directory of the process, the entries on
    disk under their absolute paths (in directory-listing order), and a
    ghost log of the removals the process has attempted. *)
Record World : Type := mkWorld {
  cwd : Path;
  entries : list (Path * Entry);
  attempts : list Path
}.

(** A relative path is taken from the working directory. *)
Definition resolve (w : World) (p : Path) : Path :=
  if String.eqb (anchor p) "" then
    mkPath (anchor (cwd w)) (names (cwd w) ++ names p)
  else p.

Definition at_path (target : Path) (pe : Path * Entry) : bool :=
  path_eqb (fst pe) target.

Definition lookup (w : World) (p : Path) : option Entry :=
  option_map snd (find (at_path (resolve w p)) (entries w)).

(** [xs] is, up to case, an initial segment of [ys]. *)
Fixpoint is_prefix (xs ys : list string) : bool :=
  match xs, ys with
  | [], _ => true
  | x :: xs', y :: ys' =>
      String.eqb (Str.lower x) (Str.lower y) && is_prefix xs' ys'
  | _ :: _, [] => false
  end.

(** [q] is [d] or lies somewhere beneath it. *)
Definition at_or_below (d q : Path) : bool :=
  String.eqb (Str.lower (anchor d)) (Str.lower (anchor q)) &&
  is_prefix (names d) (names q).

(** [q] lies [depth] levels beneath [d], any number when [depth] is
    [None]. *)
Definition beneath (depth : option nat) (d q : Path) : bool :=
  at_or_below d q &&
  match depth with
  | None => Nat.ltb (length (names d)) (length (names q))
  | Some k => Nat.eqb (length (names q)) (length (names d) + k)
  end.

(** The path under which a directory listing of [d] reports the entry
    stored at [q]: [d] as the caller wrote it, then the names on disk. *)
Definition relocate (w : World) (d q : Path) : Path :=
  mkPath (anchor d)
         (names d ++ skipn (length (names (resolve w d))) (names q)).

(** The metadata lookup behind [exists], [is_file] and [is_dir]: a
    missing path is reported as such, every other failure is raised. *)
Definition probe (w : World) (p : Path) : Result (option Entry) :=
  match lookup w p with
  | None => Ok None
  | Some e => if can_probe e then Ok (Some e) else Raise PermissionError
  end.

Definition is_kind (k : Kind) (oe : option Entry) : bool :=
  match oe with
  | Some e => match kind e, k with
              | File, File | Dir, Dir => true
              | _, _ => false
              end
  | None => false
  end.

(** [p.exists()]. *)
Definition path_exists (w : World) (p : Path) : Result bool :=
  oe <- probe w p ;;
  Ok (match oe with Some _ => true | None => false end).

(** [p.is_file()]. *)
Definition is_file (w : World) (p : Path) : Result bool :=
  oe <- probe w p ;; Ok (is_kind File oe).

(** [p.is_dir()]. *)
Definition is_dir (w : World) (p : Path) : Result bool :=
  oe <- probe w p ;; Ok (is_kind Dir oe).

(** [p.stat().st_size]. *)
Definition stat_st_size (w : World) (p : Path) : Result Z :=
  match lookup w p with
  | None => Raise FileNotFoundError
  | Some e => if can_stat e then Ok (Z.of_N (st_size e))
              else Raise PermissionError
  end.

(** A walk that starts at [d] reaches [q]: every entry from [d] down to
    the parent of [q] lets itself be listed. *)
Definition reachable (w : World) (d q : Path) : bool :=
  forallb (fun pe => negb (at_or_below d (fst pe) &&
                           beneath None (fst pe) q) || can_list (snd pe))
          (entries w).

(** The entries [depth] levels beneath [d] that a walk from [d] reaches
    and whose name matches [pattern], in listing order. *)
Definition select (w : World) (depth : option nat) (d : Path)
           (pattern : string) : list Path :=
  map (fun pe => relocate w d (fst pe))
      (filter (fun pe => beneath depth (resolve w d) (fst pe) &&
                         reachable w (resolve w d) (fst pe) &&
                         Str.fnmatch (name (fst pe)) pattern)
              (entries w)).

(** [d.rglob(pattern)] for a one-component pattern: the generator first
    checks that [d] is a directory; a [PermissionError] met while
    listing a directory is swallowed by pathlib itself, and the walk
    goes on without what lies beneath that directory. *)
Definition rglob (w : World) (d : Path) (pattern : string)
  : Result (list Path) :=
  isd <- is_dir w d ;;
  Ok (if isd then select w None d pattern else []).

(** [d.glob(pattern)] for a one-component pattern; an empty pattern is
    refused, and a refused listing of [d] is swallowed as in [rglob]. *)
Definition glob (w : World) (d : Path) (pattern : string)
  : Result (list Path) :=
  if String.eqb pattern "" then Raise ValueError
  else isd <- is_dir w d ;;
       Ok (if isd then select w (Some 1%nat) d pattern else []).

(** [d.iterdir()], run to its end: the listing is made by [os.listdir],
    whose errors nothing catches. *)
Definition iterdir (w : World) (d : Path) : Result (list Path) :=
  match lookup w d with
  | None => Raise FileNotFoundError
  | Some e =>
      match kind e with
      | File => Raise NotADirectoryError
      | Dir => if can_list e then Ok (select w (Some 1%nat) d "*")
               else Raise PermissionError
      end
  end.

Definition log_attempt (w : World) (p : Path) : World :=
  mkWorld (cwd w) (entries w) (attempts w ++ [p]).

Definition set_entries (w : World) (es : list (Path * Entry)) : World :=
  mkWorld (cwd w) es (attempts w).

(** [p.unlink()]. *)
Definition unlink (w : World) (p : Path) : Result unit * World :=
  let w1 := log_attempt w p in
  match lookup w p with
  | None => (Raise FileNotFoundError, w1)
  | Some e =>
      match kind e with
      | Dir => (Raise PermissionError, w1)
      | File =>
          if can_remove e then
            (Ok tt,
             set_entries w1
               (filter (fun pe => negb (at_path (resolve w p) pe))
                       (entries w)))
          else (Raise PermissionError, w1)
      end
  end.

(** Nothing lies beneath [q]. *)
Definition childless (w : World) (q : Path) : bool :=
  forallb (fun pe => negb (beneath None q (fst pe))) (entries w).

(** The entry does not stand in the way of [rmtree]: the system lets it
    be removed, and lets it be listed unless there is nothing to list. *)
Definition gives_way (w : World) (pe : Path * Entry) : bool :=
  can_remove (snd pe) && (can_list (snd pe) || childless w (fst pe)).

(** Nothing at or beneath [q] refuses to be removed. *)
Definition removable (w : World) (q : Path) : bool :=
  forallb (fun pe => negb (at_or_below q (fst pe)) || gives_way w pe)
          (entries w).

(** [shutil.rmtree(p, ignore_errors=True)]: removes what it can of the
    tree at [p] and reports nothing.  It lists a directory, removes what
    it finds there, then removes the directory; where the listing is
    refused it finds nothing, and a directory that is not empty stays. *)
Definition rmtree_ignore_errors (w : World) (p : Path) : World :=
  let w1 := log_attempt w p in
  if is_kind Dir (lookup w p) then
    set_entries w1
      (filter (fun pe => negb (at_or_below (resolve w p) (fst pe) &&
                               reachable w (resolve w p) (fst pe) &&
                               removable w (fst pe)))
              (entries w))
  else w1.

End OS.

Import OS.

(* ===================================================================== *)
(** * app/utils.py *)
(* ===================================================================== *)

Module Utils.

(** [sum(f.stat().st_size for f in fs if f.is_file())], with the running
    total in [acc]. *)
Fixpoint sum_file_sizes (w : World) (fs : list Path) (acc : Z) : Result Z :=
  match fs with
  | [] => Ok acc
  | f :: rest =>
      isf <- is_file w f ;;
      if isf then
        size <- stat_st_size w f ;;
        sum_file_sizes w rest (acc + size)
      else sum_file_sizes w rest acc
  end.

(** The body of the [try] of [get_file_size]: [Some n] when a [return n]
    is reached, [None] when control leaves the [try] without one. *)
Definition get_file_size_try (w : World) (path : Path)
  : Result (option Z) :=
  isf <- is_file w path ;;
  if isf then
    size <- stat_st_size w path ;;
    Ok (Some size)
  else
    isd <- is_dir w path ;;
    if isd then
      fs <- rglob w path "*" ;;
      total <- sum_file_sizes w fs 0 ;;
      Ok (Some total)
    else Ok None.

(** [get_file_size(path)]. *)
Definition get_file_size (w : World) (path : Path) : Result Z :=
  r <- except_OSError (get_file_size_try w path) (Ok None) ;;
  Ok (match r with
      | Some n => n
      | None => 0
      end).

(** [except (OSError, PermissionError)] around a call that may have
    changed the file system: the handler logs and control reaches the
    final [return False]. *)
Definition or_false (r : Result bool * World) : Result bool * World :=
  match fst r with
  | Ok b => r
  | Raise e => if is_OSError e then (Ok false, snd r) else r
  end.

(** [safe_remove_file(path)]. *)
Definition safe_remove_file (w : World) (path : Path)
  : Result bool * World :=
  or_false
    match path_exists w path with
    | Raise e => (Raise e, w)
    | Ok false => (Ok false, w)
    | Ok true =>
        match unlink w path with
        | (Ok _, w') => (Ok true, w')
        | (Raise e, w') => (Raise e, w')
        end
    end.

(** [safe_remove_dir(path)]. *)
Definition safe_remove_dir (w : World) (path : Path)
  : Result bool * World :=
  or_false
    match path_exists w path with
    | Raise e => (Raise e, w)
    | Ok false => (Ok false, w)
    | Ok true =>
        let w' := rmtree_ignore_errors w path in
        match path_exists w' path with
        | Ok still => (Ok (negb still), w')
        | Raise e => (Raise e, w')
        end
    end.

End Utils.

Import Utils.

(* ===================================================================== *)
(** * app/cleaner/windows.py *)
(* ===================================================================== *)

Module Cleaner.

(** What the constructor reads from the process: [os.environ] and
    [Path.home()]. *)
Record Environ : Type := mkEnviron {
  environ : list (string * string);
  home : Path
}.

(** [d.get(key)] for a dict written as its list of items. *)
Definition dict_get {V : Type} (key : string) (d : list (string * V))
  : option V :=
  option_map snd (find (fun kv => String.eqb (fst kv) key) d).

(** [os.environ.get(key, default)]. *)
Definition environ_get (env : Environ) (key default : string) : string :=
  match dict_get key (environ env) with
  | Some v => v
  | None => default
  end.

Record WindowsCleaner : Type := mkWindowsCleaner {
  user_home : Path;
  temp_dir : Path;
  local_app_data : Path;
  app_data : Path;
  protected_dirs : list Path;
  protected_extensions : list string
}.

(** [WindowsCleaner.__init__]. *)
Definition __init__ (env : Environ) : WindowsCleaner :=
  let user_home := home env in
  {| user_home := user_home;
     temp_dir := parse (environ_get env "TEMP" "");
     local_app_data := parse (environ_get env "LOCALAPPDATA" "");
     app_data := parse (environ_get env "APPDATA" "");
     protected_dirs :=
       [ parse "C:/Windows/System32";
         parse "C:/Windows/SysWOW64";
         parse "C:/Program Files";
         parse "C:/Program Files (x86)";
         user_home </> "Documents";
         user_home </> "Desktop";
         user_home </> "Pictures";
         user_home </> "Downloads" ];
     protected_extensions :=
       [ ".exe"; ".dll"; ".sys"; ".msi"; ".bat"; ".cmd"; ".ps1";
         ".doc"; ".docx"; ".xls"; ".xlsx"; ".pdf"; ".ppt"; ".pptx" ] |}.

(** The loop [for protected in self.protected_dirs] of
    [_is_safe_to_delete]: [true] when its [return False] is taken. *)
Fixpoint under_protected (path : Path) (dirs : list Path) : bool :=
  match dirs with
  | [] => false
  | protected :: rest =>
      if path_eqb path protected || path_mem protected (parents path)
      then true
      else under_protected path rest
  end.

(** [_is_safe_to_delete(path)].  Nothing in the body can raise, so the
    [except Exception: return False] clause is never entered. *)
Definition _is_safe_to_delete (self : WindowsCleaner) (path : Path) : bool :=
  if under_protected path (protected_dirs self) then false
  else if Str.mem (Str.lower (suffix path)) (protected_extensions self)
  then false
  else if Str.contains "Windows\System32" (str path) ||
          Str.contains "Windows\SysWOW64" (str path)
  then false
  else true.

(** A scan result: the listed files and their total size.  The listed
    strings are [str(file_path)]; [clean_files] reads them back with
    [Path(file_path)], which returns the same path, so the lists carry
    the paths themselves. *)
Definition ScanResult : Type := (list Path * Z)%type.

(** [size = get_file_size(file_path); files.append(str(file_path));
    total_size += size]. *)
Definition add_file (w : World) (file_path : Path) (acc : ScanResult)
  : Result ScanResult :=
  size <- get_file_size w file_path ;;
  Ok ((fst acc ++ [file_path])%list, snd acc + size).

(** The loop [for file_path in <paths>] of [_scan_directory], started
    with [files, total_size = acc].  It runs inside the [try]: the result
    is the state of [files] and [total_size] when the loop ends, and the
    exception that ended it, if any. *)
Fixpoint scan_files (self : WindowsCleaner) (w : World)
         (paths : list Path) (acc : ScanResult)
  : ScanResult * option exn :=
  match paths with
  | [] => (acc, None)
  | file_path :: rest =>
      match is_file w file_path with
      | Raise e => (acc, Some e)
      | Ok isf =>
          if isf && _is_safe_to_delete self file_path then
            match add_file w file_path acc with
            | Raise e => (acc, Some e)
            | Ok acc' => scan_files self w rest acc'
            end
          else scan_files self w rest acc
      end
  end.

(** The loop [for pattern in patterns] of [_scan_directory]. *)
Fixpoint scan_patterns (self : WindowsCleaner) (w : World)
         (directory : Path) (patterns : list string) (acc : ScanResult)
  : ScanResult * option exn :=
  match patterns with
  | [] => (acc, None)
  | pattern :: rest =>
      match rglob w directory pattern with
      | Raise e => (acc, Some e)
      | Ok paths =>
          match scan_files self w paths acc with
          | (acc', None) => scan_patterns self w directory rest acc'
          | (acc', Some e) => (acc', Some e)
          end
      end
  end.

(** The body of the [try] of [_scan_directory]; [patterns] is [[]] for
    [None] and for an empty list, which the test [if patterns] does not
    tell apart. *)
Definition scan_directory_try (self : WindowsCleaner) (w : World)
           (directory : Path) (patterns : list string)
  : ScanResult * option exn :=
  match patterns with
  | _ :: _ => scan_patterns self w directory patterns ([], 0)
  | [] =>
      match rglob w directory "*" with
      | Raise e => (([], 0), Some e)
      | Ok paths => scan_files self w paths ([], 0)
      end
  end.

(** [_scan_directory(directory, patterns)].  [directory.exists()] is
    evaluated before the [try]; inside it, [except PermissionError] and
    [except Exception] both log and fall through to
    [return files, total_size]. *)
Definition _scan_directory (self : WindowsCleaner) (w : World)
           (directory : Path) (patterns : list string)
  : Result ScanResult :=
  ex <- path_exists w directory ;;
  if negb ex then Ok ([], 0)
  else Ok (fst (scan_directory_try self w directory patterns)).

Definition _scan_temp_user (self : WindowsCleaner) (w : World)
  : Result ScanResult :=
  _scan_directory self w (temp_dir self) [].

Definition _scan_temp_windows (self : WindowsCleaner) (w : World)
  : Result ScanResult :=
  let windows_temp := parse "C:/Windows/Temp" in
  _scan_directory self w windows_temp [].

Definition _scan_prefetch (self : WindowsCleaner) (w : World)
  : Result ScanResult :=
  let prefetch_dir := parse "C:/Windows/Prefetch" in
  _scan_directory self w prefetch_dir ["*.pf"].

(** [for location in locations: f, s = self._scan_directory(location,
    patterns); files.extend(f); total_size += s]. *)
Fixpoint scan_each (self : WindowsCleaner) (w : World)
         (locations : list Path) (patterns : list string)
         (acc : ScanResult) : Result ScanResult :=
  match locations with
  | [] => Ok acc
  | location :: rest =>
      fs <- _scan_directory self w location patterns ;;
      scan_each self w rest patterns ((fst acc ++ fst fs)%list, snd acc + snd fs)
  end.

(** [for profile in firefox_profiles.iterdir()] of
    [_scan_browser_cache]. *)
Fixpoint scan_profiles (self : WindowsCleaner) (w : World)
         (profiles : list Path) (acc : ScanResult) : Result ScanResult :=
  match profiles with
  | [] => Ok acc
  | profile :: rest =>
      isd <- is_dir w profile ;;
      if isd then
        let ff_cache := profile </> "cache2" in
        fs <- _scan_directory self w ff_cache [] ;;
        scan_profiles self w rest ((fst acc ++ fst fs)%list, snd acc + snd fs)
      else scan_profiles self w rest acc
  end.

Definition _scan_browser_cache (self : WindowsCleaner) (w : World)
  : Result ScanResult :=
  let chrome_cache :=
    local_app_data self </> "Google/Chrome/User Data/Default/Cache" in
  let chrome_code_cache :=
    local_app_data self </> "Google/Chrome/User Data/Default/Code Cache" in
  let edge_cache :=
    local_app_data self </> "Microsoft/Edge/User Data/Default/Cache" in
  let edge_code_cache :=
    local_app_data self </> "Microsoft/Edge/User Data/Default/Code Cache" in
  let firefox_profiles := local_app_data self </> "Mozilla/Firefox/Profiles" in
  let cache_dirs :=
    [chrome_cache; chrome_code_cache; edge_cache; edge_code_cache] in
  acc <- scan_each self w cache_dirs [] ([], 0) ;;
  ex <- path_exists w firefox_profiles ;;
  if ex then
    profiles <- iterdir w firefox_profiles ;;
    scan_profiles self w profiles acc
  else Ok acc.

(** The loop [for file_path in thumbnail_cache.glob(...)] of
    [_scan_windows_cache]. *)
Fixpoint scan_thumbs (self : WindowsCleaner) (w : World)
         (paths : list Path) (acc : ScanResult) : Result ScanResult :=
  match paths with
  | [] => Ok acc
  | file_path :: rest =>
      if _is_safe_to_delete self file_path then
        acc' <- add_file w file_path acc ;;
        scan_thumbs self w rest acc'
      else scan_thumbs self w rest acc
  end.

Definition _scan_windows_cache (self : WindowsCleaner) (w : World)
  : Result ScanResult :=
  let thumbnail_cache := local_app_data self </> "Microsoft/Windows/Explorer" in
  paths <- glob w thumbnail_cache "thumbcache_*.db" ;;
  acc <- scan_thumbs self w paths ([], 0) ;;
  let icon_cache := local_app_data self </> "IconCache.db" in
  ex <- path_exists w icon_cache ;;
  if ex && _is_safe_to_delete self icon_cache then add_file w icon_cache acc
  else Ok acc.

Definition _scan_recent_files (self : WindowsCleaner) (w : World)
  : Result ScanResult :=
  let recent_dir := app_data self </> "Microsoft/Windows/Recent" in
  _scan_directory self w recent_dir ["*.lnk"].

Definition _scan_log_files (self : WindowsCleaner) (w : World)
  : Result ScanResult :=
  let log_locations :=
    [temp_dir self; local_app_data self; parse "C:/Windows/Logs"] in
  scan_each self w log_locations ["*.log"] ([], 0).

Definition _scan_old_files (self : WindowsCleaner) (w : World)
  : Result ScanResult :=
  let patterns := ["*.old"; "*.bak"; "*.tmp"; "*.temp"; "~*"] in
  let scan_locations :=
    [temp_dir self; user_home self; local_app_data self] in
  scan_each self w scan_locations patterns ([], 0).

Definition scan_methods
  : list (string * (WindowsCleaner -> World -> Result ScanResult)) :=
  [ ("temp_user", _scan_temp_user);
    ("temp_windows", _scan_temp_windows);
    ("prefetch", _scan_prefetch);
    ("browser_cache", _scan_browser_cache);
    ("windows_cache", _scan_windows_cache);
    ("recent_files", _scan_recent_files);
    ("log_files", _scan_log_files);
    ("old_files", _scan_old_files) ].

(** [scan_category(category)]. *)
Definition scan_category (self : WindowsCleaner) (w : World)
           (category : string) : Result ScanResult :=
  match dict_get category scan_methods with
  | Some method => method self w
  | None => Ok ([], 0)
  end.

(** How one pass of the loop body of [clean_files] ends when nothing is
    raised: at the first [continue] (the path does not exist), at the
    second (the safety filter rejects it), or after a removal that
    reported [success] for a file of the captured [size]. *)
Inductive Step : Type :=
| Missing
| Rejected
| Attempted (success : bool) (size : Z).

(** The body of the [try] of [clean_files] for one [file_path]. *)
Definition clean_try (self : WindowsCleaner) (w : World) (file_path : Path)
  : Result Step * World :=
  let path := file_path in
  match path_exists w path with
  | Raise e => (Raise e, w)
  | Ok false => (Ok Missing, w)
  | Ok true =>
      if negb (_is_safe_to_delete self path) then (Ok Rejected, w)
      else
        match get_file_size w path with
        | Raise e => (Raise e, w)
        | Ok size =>
            match is_file w path with
            | Raise e => (Raise e, w)
            | Ok isf =>
                let (success, w') :=
                  if isf then safe_remove_file w path
                  else safe_remove_dir w path in
                match success with
                | Ok b => (Ok (Attempted b size), w')
                | Raise e => (Raise e, w')
                end
            end
        end
  end.

(** [(removed, size_freed, errors)]. *)
Record Counters : Type := mkCounters {
  removed : Z;
  size_freed : Z;
  errors : Z
}.

(** The updates of the counters made along each way out of the loop
    body; [except Exception] counts an error. *)
Definition count (r : Result Step) (n : Counters) : Counters :=
  match r with
  | Ok Missing => n
  | Ok Rejected => mkCounters (removed n) (size_freed n) (errors n + 1)
  | Ok (Attempted true size) =>
      mkCounters (removed n + 1) (size_freed n + size) (errors n)
  | Ok (Attempted false _) =>
      mkCounters (removed n) (size_freed n) (errors n + 1)
  | Raise _ => mkCounters (removed n) (size_freed n) (errors n + 1)
  end.

(** One iteration of [for file_path in files]. *)
Definition clean_one (self : WindowsCleaner) (file_path : Path)
           (st : Counters * World) : Counters * World :=
  let (r, w') := clean_try self (snd st) file_path in
  (count r (fst st), w').

(** The loop [for file_path in files]. *)
Fixpoint clean_loop (self : WindowsCleaner) (files : list Path)
         (st : Counters * World) : Counters * World :=
  match files with
  | [] => st
  | file_path :: rest => clean_loop self rest (clean_one self file_path st)
  end.

(** [clean_files(files)]: the returned counters, and the file system
    the call leaves behind. *)
Definition clean_files (self : WindowsCleaner) (w : World)
           (files : list Path) : Counters * World :=
  clean_loop self files (mkCounters 0 0 0, w).

End Cleaner.

Import Cleaner.

(* ===================================================================== *)
(** * Concrete machines *)
(* ===================================================================== *)

Module Scenario.

Definition a_file (size : N) : Entry :=
  mkEntry File size true true true true.
Definition a_dir : Entry := mkEntry Dir 0 true true true true.

(** A file that can be listed but whose size cannot be read. *)
Definition an_unreadable_file (size : N) : Entry :=
  mkEntry File size true false true true.

(** A file the system refuses to remove. *)
Definition a_locked_file (size : N) : Entry :=
  mkEntry File size true true false true.

(** A file whose metadata lookup is refused. *)
Definition a_hidden_file (size : N) : Entry :=
  mkEntry File size false false false true.

Definition on_disk (es : list (string * Entry)) : list (Path * Entry) :=
  map (fun se => (parse (fst se), snd se)) es.

Definition env : Environ :=
  mkEnviron
    [ ("TEMP", "C:\Users\david\AppData\Local\Temp");
      ("LOCALAPPDATA", "C:\Users\david\AppData\Local");
      ("APPDATA", "C:\Users\david\AppData\Roaming") ]
    (parse "C:\Users\david").

Definition cleaner : WindowsCleaner := __init__ env.

Definition skeleton : list (string * Entry) :=
  [ ("C:\", a_dir);
    ("C:\Users", a_dir);
    ("C:\Users\david", a_dir);
    ("C:\Users\david\Documents", a_dir);
    ("C:\Users\david\AppData", a_dir);
    ("C:\Users\david\AppData\Local", a_dir);
    ("C:\Users\david\AppData\Local\Temp", a_dir) ].

Definition machine (files : list (string * Entry)) : World :=
  mkWorld (parse "C:\Users\david") (on_disk (skeleton ++ files)) [].

(** A temp directory holding one 2048-byte file and one 100-byte
    [.exe]. *)
Definition temp_with_exe : World :=
  machine
    [ ("C:\Users\david\AppData\Local\Temp\session.dat", a_file 2048);
      ("C:\Users\david\AppData\Local\Temp\setup.exe", a_file 100) ].

Definition temp_file (name : string) : Path :=
  temp_dir cleaner </> name.

(** Another process deletes [p]: the entry goes, the log of this process
    is untouched. *)
Definition externally_deleted (w : World) (p : Path) : World :=
  set_entries w (filter (fun pe => negb (at_path (resolve w p) pe))
                        (entries w)).

(** Three scanned files, and the list that names them. *)
Definition three_temp_files : World :=
  machine
    [ ("C:\Users\david\AppData\Local\Temp\a.tmp", a_file 10);
      ("C:\Users\david\AppData\Local\Temp\b.tmp", a_file 20);
      ("C:\Users\david\AppData\Local\Temp\c.tmp", a_file 30) ].

Definition three_listed : list Path :=
  [temp_file "a.tmp"; temp_file "b.tmp"; temp_file "c.tmp"].

(** The same machine after [b.tmp] was deleted behind the cleaner's
    back. *)
Definition two_left : World :=
  externally_deleted three_temp_files (temp_file "b.tmp").

(** A temp directory with a file whose size cannot be read. *)
Definition temp_unreadable : World :=
  machine
    [ ("C:\Users\david\AppData\Local\Temp\busy.dat", an_unreadable_file 700);
      ("C:\Users\david\AppData\Local\Temp\idle.dat", a_file 300) ].

(** A process started without [TEMP] in its environment, from the user's
    documents folder. *)
Definition env_without_temp : Environ :=
  mkEnviron
    [ ("LOCALAPPDATA", "C:\Users\david\AppData\Local");
      ("APPDATA", "C:\Users\david\AppData\Roaming") ]
    (parse "C:\Users\david").

Definition cleaner_without_temp : WindowsCleaner := __init__ env_without_temp.

Definition in_documents : World :=
  mkWorld (parse "C:\Users\david\Documents")
          (on_disk (skeleton ++
             [ ("C:\Users\david\Documents\thesis.txt", a_file 5000) ]))
          [].

End Scenario.

(* ===================================================================== *)
(** * Notions used by the statements *)
(* ===================================================================== *)

Module Spec.

(** [p] and [d] are the same Windows path: equal up to the case of their
    letters. *)
Definition same_path (p d : Path) : Prop := normcase p = normcase d.

(** [p] is nested under [d]: it is [d] followed by at least one more
    name. *)
Definition nested_under (p d : Path) : Prop :=
  exists rest : list string,
    rest <> [] /\ same_path p (mkPath (anchor d) (names d ++ rest)).

(** The safety filter accepts [p]. *)
Definition safe (self : WindowsCleaner) (p : Path) : Prop :=
  _is_safe_to_delete self p = true.

(** The size [get_file_size] reports for [p]. *)
Definition file_size (w : World) (p : Path) : Z :=
  match get_file_size w p with
  | Ok n => n
  | Raise _ => 0
  end.

(** The sum of the sizes of the listed files, each counted as often as it
    is listed. *)
Definition sum_of_sizes (w : World) (files : list Path) : Z :=
  fold_right Z.add 0 (map (file_size w) files).

(** What every scan result satisfies: each listed file passed the safety
    filter, and the total is the sum of the sizes of the listed files. *)
Definition sound (self : WindowsCleaner) (w : World) (r : ScanResult) : Prop :=
  Forall (safe self) (fst r) /\ snd r = sum_of_sizes w (fst r).

(** The removals attempted between the machine [w] and the later machine
    [w']. *)
Definition new_attempts (w w' : World) : list Path :=
  skipn (length (attempts w)) (attempts w').

(** [xs] is [ys] with some elements left out. *)
Inductive subseq {A : Type} : list A -> list A -> Prop :=
| subseq_nil : subseq [] []
| subseq_skip x xs ys : subseq xs ys -> subseq xs (x :: ys)
| subseq_take x xs ys : subseq xs ys -> subseq (x :: xs) (x :: ys).

(** The ids of the fixed category table. *)
Definition category_ids : list string := map fst scan_methods.

(** [w'] is [w] with some entries removed: nothing was created, and the
    working directory is the same. *)
Definition shrinks (w w' : World) : Prop :=
  cwd w' = cwd w /\
  exists keep, entries w' = filter keep (entries w).

(** [w'] is [w] after the removals [l] were attempted. *)
Definition attempted (w w' : World) (l : list Path) : Prop :=
  attempts w' = (attempts w ++ l)%list.

(** The removal made by the loop body of [clean_files] once the path was
    found and accepted: [safe_remove_file] for a regular file,
    [safe_remove_dir] otherwise. *)
Definition removal (w : World) (p : Path) (isf : bool)
  : Result bool * World :=
  if isf then safe_remove_file w p else safe_remove_dir w p.

(** [n] with one more error. *)
Definition one_more_error (n : Counters) : Counters :=
  mkCounters (removed n) (size_freed n) (errors n + 1).

(** How the loop body of [clean_files] ended for each listed path, in
    order: one entry per pass. *)
Fixpoint outcomes (self : WindowsCleaner) (w : World) (files : list Path)
  : list (Result Step) :=
  match files with
  | [] => []
  | p :: rest =>
      fst (clean_try self w p)
        :: outcomes self (snd (clean_try self w p)) rest
  end.

(** The pass removed its path. *)
Definition is_removal (r : Result Step) : bool :=
  match r with
  | Ok (Attempted true _) => true
  | _ => false
  end.

(** The pass skipped a path that was not on disk. *)
Definition is_skip (r : Result Step) : bool :=
  match r with
  | Ok Missing => true
  | _ => false
  end.

(** The pass ended in any other way: a rejection by the safety filter, a
    removal that failed, an exception. *)
Definition is_failure (r : Result Step) : bool :=
  negb (is_removal r || is_skip r).

(** How many of the passes satisfy [f]. *)
Definition tally (f : Result Step -> bool) (rs : list (Result Step)) : Z :=
  Z.of_nat (length (filter f rs)).

(** The path is on disk. *)
Definition present (w : World) (p : Path) : Prop := lookup w p <> None.

End Spec.

Import Spec.

(* ===================================================================== *)
(** * Notions about the walk of a directory *)
(* ===================================================================== *)

Module Walk.

(** [p] is [d], as written, followed by at least one more name. *)
Definition strictly_beneath (d p : Path) : Prop :=
  anchor p = anchor d /\
  exists rest : list string, rest <> [] /\ names p = (names d ++ rest)%list.

(** The paths [d.rglob(pattern)] yields, in order; none when the call
    raises. *)
Definition listing (w : World) (d : Path) (pattern : string) : list Path :=
  match rglob w d pattern with
  | Ok paths => paths
  | Raise _ => []
  end.

(** The test of the loop body of [_scan_directory], as a flag: the path
    is a regular file and passes the safety filter. *)
Definition accepted (self : WindowsCleaner) (w : World) (p : Path) : bool :=
  match is_file w p with
  | Ok isf => isf && _is_safe_to_delete self p
  | Raise _ => false
  end.

(** The metadata lookup of [p] is answered, not denied. *)
Definition answers (w : World) (p : Path) : Prop :=
  exists isf : bool, is_file w p = Ok isf.

(** The patterns [_scan_directory] walks: its own, or [*] when it was
    given none. *)
Definition patterns_walked (patterns : list string) : list string :=
  match patterns with
  | [] => ["*"]
  | _ :: _ => patterns
  end.

(** What a walk of [d] that meets no denied lookup lists: for each
    pattern in turn, the accepted paths among those the pattern yields. *)
Definition accepted_files (self : WindowsCleaner) (w : World) (d : Path)
           (patterns : list string) : list Path :=
  flat_map (fun pattern => filter (accepted self w) (listing w d pattern))
           (patterns_walked patterns).

End Walk.

Import Walk.

(* ===================================================================== *)
(** * More concrete machines *)
(* ===================================================================== *)

Module Machines.

(** A temp directory in which the metadata lookup of the second of three
    files is denied. *)
Definition temp_with_hidden : World :=
  Scenario.machine
    [ ("C:\Users\david\AppData\Local\Temp\a.tmp", Scenario.a_file 10);
      ("C:\Users\david\AppData\Local\Temp\ghost.tmp", Scenario.a_hidden_file 20);
      ("C:\Users\david\AppData\Local\Temp\c.tmp", Scenario.a_file 30) ].

(** A directory that can be looked up but refuses to be listed. *)
Definition an_unlistable_dir : Entry := mkEntry Dir 0 true true true false.

(** A machine with one Firefox profile, whose cache holds one file of 64
    bytes; [profiles] is what the system holds at the directory of the
    profiles. *)
Definition with_firefox_profile (profiles : Entry) : World :=
  Scenario.machine
    [ ("C:\Users\david\AppData\Local\Mozilla", Scenario.a_dir);
      ("C:\Users\david\AppData\Local\Mozilla\Firefox", Scenario.a_dir);
      ("C:\Users\david\AppData\Local\Mozilla\Firefox\Profiles", profiles);
      ("C:\Users\david\AppData\Local\Mozilla\Firefox\Profiles\abc.default",
       Scenario.a_dir);
      ("C:\Users\david\AppData\Local\Mozilla\Firefox\Profiles\abc.default\cache2",
       Scenario.a_dir);
      ("C:\Users\david\AppData\Local\Mozilla\Firefox\Profiles\abc.default\cache2\entry.bin",
       Scenario.a_file 64) ].

(** A temp directory that holds a file and a directory that refuses to
    be listed, with a file in it. *)
Definition temp_with_closed_dir : World :=
  Scenario.machine
    [ ("C:\Users\david\AppData\Local\Temp\open.tmp", Scenario.a_file 10);
      ("C:\Users\david\AppData\Local\Temp\closed", an_unlistable_dir);
      ("C:\Users\david\AppData\Local\Temp\closed\inner.tmp",
       Scenario.a_file 20) ].

End Machines.

(* ===================================================================== *)
(** * Notions about what the system answers *)
(* ===================================================================== *)

Module Answers.

(** No entry on disk denies its metadata lookup. *)
Definition no_lookup_denied (w : World) : Prop :=
  Forall (fun pe => can_probe (snd pe) = true) (entries w).

(** Where [_scan_browser_cache] looks for the Firefox profiles. *)
Definition firefox_profiles (self : WindowsCleaner) : Path :=
  local_app_data self </> "Mozilla/Firefox/Profiles".

(** The directory at [d], when there is one, lets itself be listed. *)
Definition listable (w : World) (d : Path) : Prop :=
  forall e, lookup w d = Some e -> kind e = Dir -> can_list e = true.

(** The single root of the categories that scan one directory. *)
Definition single_root (self : WindowsCleaner) (category : string)
  : option Path :=
  if String.eqb category "temp_user" then Some (temp_dir self)
  else if String.eqb category "temp_windows" then Some (parse "C:/Windows/Temp")
  else if String.eqb category "prefetch" then Some (parse "C:/Windows/Prefetch")
  else if String.eqb category "recent_files"
  then Some (app_data self </> "Microsoft/Windows/Recent")
  else None.

End Answers.

Import Answers.

(* ===================================================================== *)
(** * Notions about what a removal leaves *)
(* ===================================================================== *)

Module Frames.

(** [w'] still holds every entry of [w] that is not at or beneath [p]. *)
Definition spares (w w' : World) (p : Path) : Prop :=
  forall pe, In pe (entries w) ->
             at_or_below (resolve w p) (fst pe) = false ->
             In pe (entries w').

End Frames.

Import Frames.

(* ===================================================================== *)
(** * Notions about sizes on disk *)
(* ===================================================================== *)

Module Sizes.






End Sizes.

Import Sizes.

(* ===================================================================== *)
(** * app/utils.py: parse_size *)
(* ===================================================================== *)

Module SizeText.

(** [str.upper()] on ASCII. *)
Definition upper_ascii (c : ascii) : ascii :=
  let n := nat_of_ascii c in
  if (Nat.leb 97 n && Nat.leb n 122)%bool then ascii_of_nat (n - 32) else c.

Fixpoint upper (s : string) : string :=
  match s with
  | EmptyString => EmptyString
  | String c s' => String (upper_ascii c) (upper s')
  end.

(** [c.isspace()] for an ASCII character. *)
Definition is_space (c : ascii) : bool :=
  let n := nat_of_ascii c in
  ((Nat.leb 9 n && Nat.leb n 13) || (Nat.leb 28 n && Nat.leb n 32))%bool.

(** [s.lstrip()]. *)
Fixpoint lstrip (s : string) : string :=
  match s with
  | EmptyString => EmptyString
  | String c s' => if is_space c then lstrip s' else s
  end.

(** [s.rstrip()]. *)
Fixpoint rstrip (s : string) : string :=
  match s with
  | EmptyString => EmptyString
  | String c s' =>
      match rstrip s' with
      | EmptyString => if is_space c then EmptyString else String c EmptyString
      | r => String c r
      end
  end.

(** [s.strip()]. *)
Definition strip (s : string) : string := rstrip (lstrip s).

(** [s.endswith(u)]. *)
Definition endswith (s u : string) : bool :=
  (Nat.leb (String.length u) (String.length s) &&
   String.eqb (String.substring (String.length s - String.length u)
                                (String.length u) s) u)%bool.

(** [s[:-k]] for [k >= 1]. *)
Definition drop_last (k : nat) (s : string) : string :=
  String.substring 0 (String.length s - k) s.

(** What [int(value * multiplier)] does: it gives an integer, or raises
    [ValueError] (for a NaN) or [OverflowError] (for an infinity). *)
Inductive Converted : Type :=
| Whole (n : Z)
| ConversionValueError
| ConversionOverflowError.

(** What [parse_size] does: it returns an integer, or lets the
    [OverflowError] of the conversion through (its handler catches
    [ValueError] only). *)
Inductive Parsed : Type :=
| Returned (n : Z)
| RaisedOverflowError.

(** The table [units], in the order in which the dict holds its items. *)
Definition units : list (string * Z) :=
  [ ("B", 1); ("KB", 1024); ("MB", 1024 ^ 2); ("GB", 1024 ^ 3);
    ("TB", 1024 ^ 4) ]%string.

Section ParseSize.

(** The floating-point side of Python is kept abstract: the values,
    [float(s)] ([None] when it raises [ValueError]) and
    [int(value * multiplier)]. *)
Variable PyFloat : Type.
Variable to_float : string -> option PyFloat.
Variable int_of_product : PyFloat -> Z -> Converted.

(** The loop [for unit, multiplier in units.items()]. *)
Fixpoint parse_units (size_str : string) (items : list (string * Z))
  : Parsed :=
  match items with
  | [] => Returned 0
  | (unit, multiplier) :: rest =>
      if endswith size_str unit then
        match to_float (strip (drop_last (String.length unit) size_str)) with
        | None => Returned 0
        | Some value =>
            match int_of_product value multiplier with
            | Whole n => Returned n
            | ConversionValueError => Returned 0
            | ConversionOverflowError => RaisedOverflowError
            end
        end
      else parse_units size_str rest
  end.

(** [parse_size(size_str)]. *)
Definition parse_size (size_str : string) : Parsed :=
  let size_str := upper (strip size_str) in
  parse_units size_str units.

End ParseSize.

(** A reading of [float] that knows unsigned decimal integers only, and
    the exact conversion that goes with it. *)
Definition is_digit (c : ascii) : bool :=
  let n := nat_of_ascii c in (Nat.leb 48 n && Nat.leb n 57)%bool.

Fixpoint all_digits (s : string) : bool :=
  match s with
  | EmptyString => true
  | String c s' => is_digit c && all_digits s'
  end.

Fixpoint digits_value (s : string) (acc : Z) : Z :=
  match s with
  | EmptyString => acc
  | String c s' => digits_value s' (10 * acc + Z.of_nat (nat_of_ascii c - 48))
  end.

Definition decimal_float (s : string) : option Z :=
  match s with
  | EmptyString => None
  | _ => if all_digits s then Some (digits_value s 0) else None
  end.

Definition exact_product (value multiplier : Z) : Converted :=
  Whole (value * multiplier).

End SizeText.

Import SizeText.

(* ===================================================================== *)
(** * app/cleaner/windows.py: get_categories *)
(* ===================================================================== *)

Module Categories.

Record CategoryInfo : Type := mkCategoryInfo {
  cat_name : string;
  cat_icon : string;
  cat_description : string
}.

(** [get_categories()], as the list of the items of the returned dict. *)
Definition get_categories : list (string * CategoryInfo) :=
  [ ("temp_user",
     mkCategoryInfo "Arquivos Temporários do Usuário" "📁"
                    "Pasta TEMP do usuário atual");
    ("temp_windows",
     mkCategoryInfo "Arquivos Temporários do Windows" "🪟"
                    "Pasta C:\Windows\Temp");
    ("prefetch",
     mkCategoryInfo "Prefetch" "⚡"
                    "Arquivos de pré-carregamento do Windows");
    ("browser_cache",
     mkCategoryInfo "Cache de Navegadores" "🌐"
                    "Cache do Chrome, Firefox, Edge");
    ("windows_cache",
     mkCategoryInfo "Cache do Windows" "💾"
                    "Cache de thumbnails e ícones");
    ("recent_files",
     mkCategoryInfo "Arquivos Recentes" "📋"
                    "Lista de arquivos recentes");
    ("log_files",
     mkCategoryInfo "Arquivos de Log" "📝"
                    "Arquivos .log antigos");
    ("old_files",
     mkCategoryInfo "Arquivos Antigos/Backup" "📦"
                    "Arquivos .old, .bak, .tmp") ]%string.

End Categories.

Import Categories.

(* ===================================================================== *)
(** * app/main.py: the analysis and cleaning threads *)
(* ===================================================================== *)

Module App.

(** The part of [LimpezaDavidApp] the two threads read and write: the
    results of the last analysis, the three flags, and whether the two
    buttons are enabled.  Updates of the status line, of the progress bar
    and of the labels, and the dialogs, show values and change nothing
    that is computed; like the calls to the logger they are left out. *)
Record AppState : Type := mkAppState {
  scan_results : list (string * ScanResult);
  scan_complete : bool;
  is_scanning : bool;
  is_cleaning : bool;
  clean_btn_enabled : bool;
  rescan_btn_enabled : bool
}.

(** [d[key] = v] for a dict written as the list of its items: the value
    of a key already there is replaced in place, a new key goes last. *)
Fixpoint dict_set {V : Type} (key : string) (v : V) (d : list (string * V))
  : list (string * V) :=
  match d with
  | [] => [(key, v)]
  | (k, v') :: rest =>
      if String.eqb k key then (k, v) :: rest
      else (k, v') :: dict_set key v rest
  end.

(** What [except Exception] catches in the threads: a [KeyError] from a
    subscript, or an exception raised by the cleaner. *)
Inductive Caught : Type :=
| KeyError (key : string)
| Raised (e : exn).

(** The locals of the loop of [_scan_thread], with [self.scan_results]. *)
Record ScanLocals : Type := mkScanLocals {
  results : list (string * ScanResult);
  total_size : Z;
  total_files : Z
}.

(** The loop [for i, cat_id in enumerate(categories)] of [_scan_thread]:
    the locals when it ends, and what ended it early, if anything. *)
Fixpoint scan_categories (cleaner : WindowsCleaner) (w : World)
         (categories : list string) (st : ScanLocals)
  : ScanLocals * option Caught :=
  match categories with
  | [] => (st, None)
  | cat_id :: rest =>
      match dict_get cat_id get_categories with
      | None => (st, Some (KeyError cat_id))
      | Some cat_info =>
          match scan_category cleaner w cat_id with
          | Raise e => (st, Some (Raised e))
          | Ok (files, size) =>
              scan_categories cleaner w rest
                (mkScanLocals
                   (dict_set cat_id (files, size) (results st))
                   (total_size st + size)
                   (total_files st + Z.of_nat (length files)))
          end
      end
  end.

(** [_scan_thread(categories)]: the state it leaves, and the totals
    [(total_size, total_files)] it shows when the analysis completes. *)
Definition _scan_thread (cleaner : WindowsCleaner) (w : World)
           (app : AppState) (categories : list string)
  : AppState * option (Z * Z) :=
  match scan_categories cleaner w categories (mkScanLocals [] 0 0) with
  | (st, None) =>
      (mkAppState (results st) true false (is_cleaning app)
                  (if 0 <? total_files st then true
                   else clean_btn_enabled app)
                  true,
       Some (total_size st, total_files st))
  | (st, Some _) =>
      (mkAppState (results st) (scan_complete app) false (is_cleaning app)
                  (clean_btn_enabled app) true,
       None)
  end.

(** The two sums [_start_clean] shows in its confirmation dialog:
    [sum(len(r['files']) ...)] and [sum(r['size'] ...)] over the values
    of [self.scan_results]. *)
Definition confirmation_totals (app : AppState) : Z * Z :=
  (fold_right Z.add 0
     (map (fun kv => Z.of_nat (length (fst (snd kv)))) (scan_results app)),
   fold_right Z.add 0 (map (fun kv => snd (snd kv)) (scan_results app))).

(** [d[key]]: [None] stands for [KeyError]. *)
Definition subscript {V : Type} (d : list (string * V)) (key : string)
  : option V := dict_get key d.

(** The loop [for i, cat_id in enumerate(categories)] of [_clean_thread],
    with the totals in a [Counters]. *)
Fixpoint clean_categories (cleaner : WindowsCleaner)
         (scanned : list (string * ScanResult)) (categories : list string)
         (st : Counters * World) : (Counters * World) * option Caught :=
  match categories with
  | [] => (st, None)
  | cat_id :: rest =>
      match subscript get_categories cat_id with
      | None => (st, Some (KeyError cat_id))
      | Some cat_info =>
          match subscript scanned cat_id with
          | None => (st, Some (KeyError cat_id))
          | Some (files, _) =>
              match files with
              | [] => clean_categories cleaner scanned rest st
              | _ :: _ =>
                  let (n, w') := clean_files cleaner (snd st) files in
                  clean_categories cleaner scanned rest
                    (mkCounters (removed (fst st) + removed n)
                                (size_freed (fst st) + size_freed n)
                                (errors (fst st) + errors n),
                     w')
              end
          end
      end
  end.

(** [_clean_thread()]: the state and the machine it leaves, and the
    totals [(total_removed, total_size_freed, total_errors)] of its final
    message when the cleaning completes. *)
Definition _clean_thread (cleaner : WindowsCleaner) (w : World)
           (app : AppState) : AppState * World * option Counters :=
  let categories := map fst (scan_results app) in
  match clean_categories cleaner (scan_results app) categories
          (mkCounters 0 0 0, w) with
  | ((totals, w'), None) =>
      (mkAppState [] false (is_scanning app) false
                  (clean_btn_enabled app) true,
       w', Some totals)
  | ((_, w'), Some _) =>
      (mkAppState (scan_results app) (scan_complete app) (is_scanning app)
                  false (clean_btn_enabled app) true,
       w', None)
  end.

End App.

Import App.

(* ===================================================================== *)
(** * Notions about the threads *)
(* ===================================================================== *)

Module Threads.

(** The dict [d] holds the result of the scan of each of its keys. *)
Definition holds_scans (cleaner : WindowsCleaner) (w : World)
           (d : list (string * ScanResult)) : Prop :=
  forall id r, In (id, r) d -> scan_category cleaner w id = Ok r.

(** The number of files listed under the key [id] of [d], [0] when the
    key is not there. *)
Definition listed_under (d : list (string * ScanResult)) (id : string) : Z :=
  match subscript d id with
  | Some (files, _) => Z.of_nat (length files)
  | None => 0
  end.

End Threads.

Import Threads.

(* ===================================================================== *)
(** * [app/utils.py]: [format_size] *)
(* ===================================================================== *)

From Stdlib Require QArith Qround DecimalString.

(** [format_size] computes with a Python [float].  A float is modelled by
    the rational number it denotes.  [float(size_bytes)] is that same
    number for every integer up to [2^53], and a division by [1024], a
    power of two, is exact, so that on such sizes no rounding takes place
    before the value is printed. *)

Module SizeFormat.

Import QArith Qround DecimalString.
Local Open Scope string_scope.
Local Open Scope Z_scope.

(** [int(size)] truncates towards zero. *)
Definition int_of (size : Q) : Z :=
  if Qle_bool (inject_Z 0) size then Qfloor size else Qceiling size.

(** [str] of a Python integer. *)
Definition str_int (z : Z) : string := NilZero.string_of_int (Z.to_int z).

(** The integer nearest to [q], ties going to the even one: the rounding
    of the format specification [.2f], applied to the exact value. *)
Definition round_half_even (q : Q) : Z :=
  let f := Qfloor q in
  match Qcompare (q - inject_Z f)%Q (1 # 2)%Q with
  | Lt => f
  | Gt => f + 1
  | Eq => if Z.even f then f else f + 1
  end.

Definition two_digits (z : Z) : string :=
  if z <? 10 then "0" ++ str_int z else str_int z.

(** [f"{size:.2f}"], for a [size] that is not negative. *)
Definition format_2f (size : Q) : string :=
  let hundredths := round_half_even (size * inject_Z 100)%Q in
  str_int (hundredths / 100) ++ "." ++ two_digits (hundredths mod 100).

Definition units : list string := ["B"; "KB"; "MB"; "GB"; "TB"].

(** The loop [while size >= 1024 and unit_index < len(units) - 1].
    [remaining] is [len(units) - 1 - unit_index], the number of larger
    units that are left. *)
Fixpoint scale (size : Q) (unit_index remaining : nat) : Q * nat :=
  match remaining with
  | O => (size, unit_index)
  | S remaining' =>
      if Qle_bool (inject_Z 1024) size
      then scale (size / inject_Z 1024)%Q (S unit_index) remaining'
      else (size, unit_index)
  end.

Definition format_size (size_bytes : Z) : string :=
  if size_bytes <? 0 then "0 B"
  else
    let (size, unit_index) :=
      scale (inject_Z size_bytes) 0 (length units - 1)%nat in
    if Nat.eqb unit_index 0
    then str_int (int_of size) ++ " " ++ nth unit_index units ""
    else format_2f size ++ " " ++ nth unit_index units "".

(** The value of [size] after [turns] turns of the loop. *)
Definition after_turns (size_bytes : Z) (turns : nat) : Q :=
  Nat.iter turns (fun size => size / inject_Z 1024)%Q (inject_Z size_bytes).

(** The text printed for [n] bytes, and its numeral, are left as they
    are by [strip] and [upper]. *)
Definition numeral_survives (n : Z) : bool :=
  (String.eqb (upper (strip (str_int n ++ " B"))) (str_int n ++ " B")
   && String.eqb (strip (str_int n ++ " ")) (str_int n))%bool.

End SizeFormat.

(* ===================================================================== *)
(** * Notions about cleaning twice *)
(* ===================================================================== *)

Module Twice.





End Twice.

Import Twice.

(* ===================================================================== *)
(** * Facts about strings and paths *)
(* ===================================================================== *)

Section StringFacts.

Lemma mem_In x xs : Str.mem x xs = true <-> In x xs.
Proof.
  unfold Str.mem. rewrite existsb_exists. split.
  - intros [y [Hy E]]. apply String.eqb_eq in E. now subst.
  - intros H. exists x. split; [assumption | apply String.eqb_refl].
Qed.

End StringFacts.

Section PathFacts.

Lemma strs_eqb_eq xs ys : strs_eqb xs ys = true <-> xs = ys.
Proof.
  revert ys. induction xs as [|x xs IH]; intros [|y ys]; simpl;
    try (split; [discriminate | discriminate]); try tauto.
  rewrite andb_true_iff, String.eqb_eq, IH. split.
  - intros [-> ->]. reflexivity.
  - intros E. injection E as -> ->. tauto.
Qed.

Lemma path_eqb_normcase p q :
  path_eqb p q = true <-> normcase p = normcase q.
Proof.
  unfold path_eqb, normcase.
  rewrite andb_true_iff, String.eqb_eq, strs_eqb_eq. split.
  - intros [-> ->]. reflexivity.
  - intros E. injection E as -> ->. tauto.
Qed.

Lemma path_eqb_refl p : path_eqb p p = true.
Proof. now apply path_eqb_normcase. Qed.



End PathFacts.

Example parse_abs :
  parse "C:/Windows/System32" = mkPath "C:\" ["Windows"; "System32"].
Proof. reflexivity. Qed.
Example parse_empty : parse "" = mkPath "" [].
Proof. reflexivity. Qed.
Example str_abs : str (parse "C:/Program Files (x86)/a.b") = "C:\Program Files (x86)\a.b".
Proof. reflexivity. Qed.
Example suffix_ex : suffix (parse "C:/t/Setup.EXE") = ".EXE" /\ suffix (parse ".exe") = "" /\ suffix (parse "a.tar.gz") = ".gz" /\ suffix (parse "a.") = "".
Proof. repeat split. Qed.
Example parents_ex : parents (parse "C:/a/b") = [parse "C:/a"; parse "C:/"] /\ parents (parse "a/b") = [parse "a"; parse ""] /\ parents (parse "") = [].
Proof. repeat split. Qed.
Example join_ex : parse "C:/u" </> "Google/Chrome/User Data" = parse "C:\u\Google\Chrome\User Data".
Proof. reflexivity. Qed.

(* ===================================================================== *)
(** * Facts about results *)
(* ===================================================================== *)

Lemma os_only_bind {A B} (m : Result A) (k : A -> Result B) :
  os_only m -> (forall a, m = Ok a -> os_only (k a)) -> os_only (bind m k).
Proof.
  destruct m as [a|e]; simpl; intros Hm Hk; [now apply Hk | exact Hm].
Qed.

(* ===================================================================== *)
(** * The safety filter *)
(* ===================================================================== *)

Section SafetyFilter.

Variable self : WindowsCleaner.

Lemma lower_names_length (xs ys : list string) :
  map Str.lower xs = map Str.lower ys -> length xs = length ys.
Proof.
  intros E. rewrite <- (length_map Str.lower xs), E. apply length_map.
Qed.

(** A directory under which [p] is nested is one of the parents of [p]. *)
Lemma nested_under_parents p d :
  nested_under p d -> path_mem d (parents p) = true.
Proof.
  intros [rest [Hrest E]]. unfold same_path, normcase in E. simpl in E.
  injection E as Ea En. rewrite map_app in En.
  assert (Hlen : (length (names d) < length (names p))%nat).
  { rewrite <- (length_map Str.lower (names p)), En, length_app, !length_map.
    destruct rest; [congruence | simpl; lia]. }
  unfold path_mem, parents. apply existsb_exists.
  exists (mkPath (anchor p) (firstn (length (names d)) (names p))). split.
  - apply in_map_iff. exists (length (names d)). split; [reflexivity |].
    apply -> in_rev. apply in_seq. lia.
  - apply path_eqb_normcase. unfold normcase. simpl. f_equal.
    + now symmetry.
    + rewrite <- firstn_map, En.
      rewrite <- (length_map Str.lower (names d)).
      rewrite firstn_app, firstn_all, Nat.sub_diag. simpl.
      now rewrite app_nil_r.
Qed.

Lemma under_protected_In p d dirs :
  In d dirs ->
  path_eqb p d = true \/ path_mem d (parents p) = true ->
  under_protected p dirs = true.
Proof.
  induction dirs as [|d' dirs IH]; simpl; [tauto |].
  intros [-> | Hin] H.
  - destruct H as [-> | ->]; [reflexivity | now rewrite orb_true_r].
  - destruct (path_eqb p d' || path_mem d' (parents p)); auto.
Qed.

Lemma under_protected_unsafe p :
  under_protected p (protected_dirs self) = true ->
  _is_safe_to_delete self p = false.
Proof. unfold _is_safe_to_delete. now intros ->. Qed.

Lemma protected_extension_unsafe p :
  Str.mem (Str.lower (suffix p)) (protected_extensions self) = true ->
  _is_safe_to_delete self p = false.
Proof.
  unfold _is_safe_to_delete. intros ->.
  now destruct (under_protected p (protected_dirs self)).
Qed.

End SafetyFilter.

(** C3. For any path [p], [_is_safe_to_delete p] is false whenever [p] is
    equal to, or nested under, a directory of the configured protected
    set.  Nothing is assumed about the name or the extension of [p]. *)
Theorem protected_directory_is_unsafe
  (self : WindowsCleaner) (p d : Path) :
  In d (protected_dirs self) ->
  same_path p d \/ nested_under p d ->
  _is_safe_to_delete self p = false.
Proof.
  intros Hd Hp. apply under_protected_unsafe.
  apply (under_protected_In p d); [assumption |].
  destruct Hp as [Heq | Hnest].
  - left. now apply path_eqb_normcase.
  - right. now apply nested_under_parents.
Qed.

Lemma protected_directory_is_unsafe_witness :
  _is_safe_to_delete Scenario.cleaner
    (parse "c:/program files/Editor/plugins/notes.txt") = false.
Proof.
  apply (protected_directory_is_unsafe Scenario.cleaner _
           (parse "C:/Program Files")).
  - simpl. right. right. left. reflexivity.
  - right. exists ["Editor"; "plugins"; "notes.txt"].
    split; [discriminate | reflexivity].
Defined.

(* ===================================================================== *)
(** * The extension of a file name *)
(* ===================================================================== *)

Section Extension.

Lemma rfind_lower_bound c s : -1 <= Str.rfind c s.
Proof.
  induction s as [|a s IH]; simpl; [lia |].
  destruct (0 <=? Str.rfind c s) eqn:E.
  - apply Z.leb_le in E. lia.
  - destruct (Ascii.eqb a c); lia.
Qed.

Lemma rfind_app c s t :
  Str.rfind c (s ++ t)
  = if 0 <=? Str.rfind c t then Str.len s + Str.rfind c t
    else Str.rfind c s.
Proof.
  unfold Str.len. induction s as [|a s IH].
  - simpl. destruct (0 <=? Str.rfind c t) eqn:E; [lia |].
    apply Z.leb_gt in E. pose proof (rfind_lower_bound c t). lia.
  - cbn [String.append Str.rfind String.length]. rewrite IH.
    destruct (0 <=? Str.rfind c t) eqn:E.
    + apply Z.leb_le in E.
      destruct (0 <=? Z.of_nat (String.length s) + Str.rfind c t) eqn:E';
        [lia |].
      apply Z.leb_gt in E'. lia.
    + reflexivity.
Qed.

Lemma length_append (s t : string) :
  String.length (s ++ t) = (String.length s + String.length t)%nat.
Proof. induction s as [|a s IH]; simpl; [reflexivity | now rewrite IH]. Qed.

Lemma substring_whole (t : string) :
  String.substring 0 (String.length t) t = t.
Proof. induction t as [|a t IH]; simpl; [reflexivity | now rewrite IH]. Qed.

Lemma slice_from_append (s t : string) :
  Str.slice_from (Str.len s) (s ++ t) = t.
Proof.
  unfold Str.slice_from, Str.len. rewrite Nat2Z.id, length_append.
  replace (String.length s + String.length t - String.length s)%nat
    with (String.length t) by lia.
  induction s as [|a s IH]; simpl; [apply substring_whole | exact IH].
Qed.

(** The suffix of [stem.ext], for a stem that is not empty and an
    extension [ext] that is not empty and holds no dot, is [.ext]. *)
Lemma suffix_of_stem_ext (a : string) (dirs : list string)
      (stem ext : string) :
  stem <> "" -> ext <> "" -> Str.rfind "." ext = -1 ->
  suffix (mkPath a (dirs ++ [stem ++ "." ++ ext])) = "." ++ ext.
Proof.
  intros Hstem Hext Hdot. unfold suffix, name. cbn [names].
  rewrite last_last, rfind_app.
  assert (Hr : Str.rfind "." ("." ++ ext) = 0).
  { cbn [String.append Str.rfind]. rewrite Hdot. reflexivity. }
  rewrite Hr. cbn [Z.leb Z.compare]. rewrite Z.add_0_r.
  assert (Hs : 0 < Str.len stem).
  { unfold Str.len. destruct stem; [congruence | simpl String.length; lia]. }
  assert (He : 0 < Str.len ext).
  { unfold Str.len. destruct ext; [congruence | simpl String.length; lia]. }
  assert (Hlen : Str.len (stem ++ "." ++ ext)
                 = Str.len stem + 1 + Str.len ext).
  { unfold Str.len. rewrite !length_append. simpl String.length. lia. }
  rewrite Hlen.
  replace (0 <? Str.len stem) with true by (symmetry; apply Z.ltb_lt; lia).
  replace (Str.len stem <? Str.len stem + 1 + Str.len ext - 1) with true
    by (symmetry; apply Z.ltb_lt; lia).
  cbn [andb]. apply slice_from_append.
Qed.

End Extension.

(** C4. A path whose extension, compared case-insensitively, is in the
    protected-extension set is never safe to delete, wherever it lies:
    this holds for the extension as pathlib computes it ([suffix]), and
    so for every file name [stem.ext] whose [.ext], lower-cased, is in
    the set.  In particular, scanning a temp directory that holds one 2048-byte
    plain file and one 100-byte [.exe] file returns exactly the plain
    file, with a total size of 2048: the [.exe] lies outside every
    protected directory and is excluded by its extension alone. *)
Theorem protected_extension_is_unsafe :
  (forall (self : WindowsCleaner) (p : Path),
      In (Str.lower (suffix p)) (protected_extensions self) ->
      _is_safe_to_delete self p = false) /\
  (forall (self : WindowsCleaner) (a : string) (dirs : list string)
          (stem ext : string),
      stem <> "" -> ext <> "" -> Str.rfind "." ext = -1 ->
      In (Str.lower ("." ++ ext)) (protected_extensions self) ->
      _is_safe_to_delete self (mkPath a (dirs ++ [stem ++ "." ++ ext]))
      = false) /\
  (scan_category Scenario.cleaner Scenario.temp_with_exe "temp_user"
     = Ok ([Scenario.temp_file "session.dat"], 2048) /\
   under_protected (Scenario.temp_file "setup.exe")
     (protected_dirs Scenario.cleaner) = false /\
   _is_safe_to_delete Scenario.cleaner (Scenario.temp_file "setup.exe")
     = false).
Proof.
  split; [| split].
  - intros self p Hext. apply protected_extension_unsafe.
    now apply mem_In.
  - intros self a dirs stem ext Hstem Hext Hdot Hin.
    apply protected_extension_unsafe. apply mem_In.
    now rewrite suffix_of_stem_ext.
  - repeat split; vm_compute; reflexivity.
Qed.

Lemma protected_extension_is_unsafe_witness :
  _is_safe_to_delete Scenario.cleaner (parse "D:/Media/Installer.MSI") = false.
Proof.
  apply (proj1 protected_extension_is_unsafe).
  simpl. right. right. right. left. reflexivity.
Defined.

(* ===================================================================== *)
(** * Dispatch on the category *)
(* ===================================================================== *)

Lemma dict_get_absent {V : Type} (key : string) (d : list (string * V)) :
  ~ In key (map fst d) -> dict_get key d = None.
Proof.
  unfold dict_get. induction d as [|[k v] d IH]; simpl; [reflexivity |].
  intros Hnot. destruct (String.eqb k key) eqn:E.
  - apply String.eqb_eq in E. tauto.
  - apply IH. tauto.
Qed.

Example category_ids_are :
  category_ids =
    [ "temp_user"; "temp_windows"; "prefetch"; "browser_cache";
      "windows_cache"; "recent_files"; "log_files"; "old_files" ].
Proof. reflexivity. Qed.

(** C7. For every category id that is not in the fixed category table,
    [scan_category] returns the empty result [([], 0)] and raises
    nothing. *)
Theorem unknown_category_is_empty
  (self : WindowsCleaner) (w : World) (category : string) :
  ~ In category category_ids ->
  scan_category self w category = Ok ([], 0).
Proof.
  intros Hnot. unfold scan_category.
  now rewrite (dict_get_absent category scan_methods Hnot).
Qed.

Lemma unknown_category_is_empty_witness :
  scan_category Scenario.cleaner Scenario.temp_with_exe "registry"
    = Ok ([], 0).
Proof.
  apply unknown_category_is_empty.
  simpl. intros H. repeat (destruct H as [H | H]; [discriminate H |]).
  exact H.
Defined.

(* ===================================================================== *)
(** * What the system calls can raise *)
(* ===================================================================== *)

Section Calls.

Variable w : World.

Lemma probe_os_only p : os_only (probe w p).
Proof.
  unfold probe. destruct (lookup w p) as [e|]; simpl; [| exact I].
  destruct (can_probe e); simpl; auto.
Qed.

Lemma is_file_os_only p : os_only (is_file w p).
Proof.
  unfold is_file. apply os_only_bind; [apply probe_os_only | simpl; auto].
Qed.

Lemma is_dir_os_only p : os_only (is_dir w p).
Proof.
  unfold is_dir. apply os_only_bind; [apply probe_os_only | simpl; auto].
Qed.

Lemma path_exists_os_only p : os_only (path_exists w p).
Proof.
  unfold path_exists. apply os_only_bind; [apply probe_os_only | simpl; auto].
Qed.

Lemma stat_st_size_os_only p : os_only (stat_st_size w p).
Proof.
  unfold stat_st_size. destruct (lookup w p) as [e|]; simpl; [| reflexivity].
  destruct (can_stat e); simpl; auto.
Qed.

Lemma stat_st_size_nonneg p n : stat_st_size w p = Ok n -> 0 <= n.
Proof.
  unfold stat_st_size. destruct (lookup w p) as [e|]; [| discriminate].
  destruct (can_stat e); [| discriminate].
  intros E. injection E as <-. apply N2Z.is_nonneg.
Qed.

Lemma rglob_os_only d pattern : os_only (rglob w d pattern).
Proof.
  unfold rglob. apply os_only_bind; [apply is_dir_os_only | simpl; auto].
Qed.

(** A missing path: every lookup says so. *)
Lemma probe_missing p : lookup w p = None -> probe w p = Ok None.
Proof. unfold probe. now intros ->. Qed.

Lemma path_exists_missing p : lookup w p = None -> path_exists w p = Ok false.
Proof. intros H. unfold path_exists. now rewrite probe_missing. Qed.

Lemma path_exists_true p : path_exists w p = Ok true -> lookup w p <> None.
Proof.
  unfold path_exists, probe. destruct (lookup w p) as [e|]; [discriminate |].
  simpl. discriminate.
Qed.

Lemma path_exists_false p : path_exists w p = Ok false -> lookup w p = None.
Proof.
  unfold path_exists, probe. destruct (lookup w p) as [e|]; [| reflexivity].
  destruct (can_probe e); simpl; discriminate.
Qed.

End Calls.

(* ===================================================================== *)
(** * get_file_size *)
(* ===================================================================== *)

Section FileSize.

Variable w : World.

Lemma sum_file_sizes_os_only fs acc : os_only (sum_file_sizes w fs acc).
Proof.
  revert acc. induction fs as [|f fs IH]; intros acc; simpl; [exact I |].
  apply os_only_bind; [apply is_file_os_only |].
  intros [|] _; [| apply IH].
  apply os_only_bind; [apply stat_st_size_os_only | intros; apply IH].
Qed.

Lemma sum_file_sizes_nonneg fs acc n :
  0 <= acc -> sum_file_sizes w fs acc = Ok n -> 0 <= n.
Proof.
  revert acc. induction fs as [|f fs IH]; intros acc Hacc; simpl.
  - intros E. injection E as <-. exact Hacc.
  - destruct (is_file w f) as [[|]|e]; simpl; try discriminate.
    + destruct (stat_st_size w f) as [size|e] eqn:Hs; simpl; [| discriminate].
      apply IH. apply stat_st_size_nonneg in Hs. lia.
    + now apply IH.
Qed.

Lemma get_file_size_try_os_only p : os_only (get_file_size_try w p).
Proof.
  unfold get_file_size_try.
  apply os_only_bind; [apply is_file_os_only |].
  intros [|] _.
  - apply os_only_bind; [apply stat_st_size_os_only | simpl; auto].
  - apply os_only_bind; [apply is_dir_os_only |].
    intros [|] _; [| exact I].
    apply os_only_bind; [apply rglob_os_only |].
    intros fs _.
    apply os_only_bind; [apply sum_file_sizes_os_only | simpl; auto].
Qed.

Lemma get_file_size_try_nonneg p n :
  get_file_size_try w p = Ok (Some n) -> 0 <= n.
Proof.
  unfold get_file_size_try.
  destruct (is_file w p) as [[|]|e]; simpl; try discriminate.
  - destruct (stat_st_size w p) as [size|e] eqn:Hs; simpl; [| discriminate].
    intros E. injection E as <-. now apply stat_st_size_nonneg in Hs.
  - destruct (is_dir w p) as [[|]|e]; simpl; try discriminate.
    destruct (rglob w p "*") as [fs|e]; simpl; [| discriminate].
    destruct (sum_file_sizes w fs 0) as [total|e] eqn:Ht; simpl;
      [| discriminate].
    intros E. injection E as <-.
    now apply (sum_file_sizes_nonneg fs 0 total).
Qed.

(** [get_file_size] always returns, and what it returns is not
    negative. *)
Lemma get_file_size_returns p :
  exists n, get_file_size w p = Ok n /\ 0 <= n.
Proof.
  unfold get_file_size.
  pose proof (get_file_size_try_os_only p) as Hos.
  pose proof (get_file_size_try_nonneg p) as Hnn.
  destruct (get_file_size_try w p) as [[n|]|e]; simpl in *.
  - exists n. split; [reflexivity | now apply Hnn].
  - exists 0. split; [reflexivity | lia].
  - rewrite Hos. simpl. exists 0. split; [reflexivity | lia].
Qed.

Lemma get_file_size_file_size p : get_file_size w p = Ok (file_size w p).
Proof.
  unfold file_size. destruct (get_file_size_returns p) as [n [-> _]].
  reflexivity.
Qed.

Lemma file_size_nonneg p : 0 <= file_size w p.
Proof.
  unfold file_size. destruct (get_file_size_returns p) as [n [-> Hn]].
  exact Hn.
Qed.

(** The three ways in which the size is reported as [0]. *)
Lemma get_file_size_missing p :
  lookup w p = None -> get_file_size w p = Ok 0.
Proof.
  intros H. unfold get_file_size, get_file_size_try, is_file, is_dir.
  rewrite (probe_missing w p H). reflexivity.
Qed.

Lemma get_file_size_probe_fails p e :
  is_file w p = Raise e -> get_file_size w p = Ok 0.
Proof.
  intros H. unfold get_file_size, get_file_size_try.
  pose proof (is_file_os_only w p) as Hos. rewrite H in *. simpl in *.
  now rewrite Hos.
Qed.

Lemma get_file_size_stat_fails p e :
  is_file w p = Ok true -> stat_st_size w p = Raise e ->
  get_file_size w p = Ok 0.
Proof.
  intros Hf Hs. unfold get_file_size, get_file_size_try.
  pose proof (stat_st_size_os_only w p) as Hos.
  rewrite Hf. simpl. rewrite Hs in *. simpl in *. now rewrite Hos.
Qed.

End FileSize.

(* ===================================================================== *)
(** * The scans *)
(* ===================================================================== *)

Section Scans.

Variable self : WindowsCleaner.
Variable w : World.

Lemma sum_of_sizes_app xs ys :
  sum_of_sizes w (xs ++ ys) = sum_of_sizes w xs + sum_of_sizes w ys.
Proof.
  unfold sum_of_sizes. induction xs as [|x xs IH]; simpl; [reflexivity |].
  rewrite IH. lia.
Qed.

Lemma sum_of_sizes_nonneg xs : 0 <= sum_of_sizes w xs.
Proof.
  unfold sum_of_sizes. induction xs as [|x xs IH]; simpl; [lia |].
  pose proof (file_size_nonneg w x). lia.
Qed.

Lemma sound_empty : sound self w ([], 0).
Proof. split; [constructor | reflexivity]. Qed.

Lemma sound_extend (a b : ScanResult) :
  sound self w a -> sound self w b ->
  sound self w ((fst a ++ fst b)%list, snd a + snd b).
Proof.
  intros [Ha1 Ha2] [Hb1 Hb2]. split; simpl.
  - apply Forall_app. now split.
  - rewrite sum_of_sizes_app. congruence.
Qed.

Lemma add_file_eq p acc :
  add_file w p acc = Ok ((fst acc ++ [p])%list, snd acc + file_size w p).
Proof. unfold add_file. now rewrite get_file_size_file_size. Qed.

Lemma add_file_sound p acc :
  sound self w acc -> safe self p ->
  sound self w ((fst acc ++ [p])%list, snd acc + file_size w p).
Proof.
  intros Hacc Hp. apply (sound_extend acc ([p], file_size w p) Hacc).
  split; simpl; [now constructor | unfold sum_of_sizes; simpl; lia].
Qed.

Lemma scan_files_sound paths acc :
  sound self w acc -> sound self w (fst (scan_files self w paths acc)).
Proof.
  revert acc. induction paths as [|p paths IH]; intros acc Hacc; simpl;
    [exact Hacc |].
  destruct (is_file w p) as [isf|e]; [| exact Hacc].
  destruct (isf && _is_safe_to_delete self p) eqn:Hc; [| now apply IH].
  apply andb_true_iff in Hc. destruct Hc as [_ Hsafe].
  rewrite add_file_eq. apply IH. now apply add_file_sound.
Qed.

Lemma scan_patterns_sound directory patterns acc :
  sound self w acc ->
  sound self w (fst (scan_patterns self w directory patterns acc)).
Proof.
  revert acc. induction patterns as [|pattern patterns IH];
    intros acc Hacc; simpl; [exact Hacc |].
  destruct (rglob w directory pattern) as [paths|e]; [| exact Hacc].
  pose proof (scan_files_sound paths acc Hacc) as Hs.
  destruct (scan_files self w paths acc) as [acc' [e|]]; simpl in *.
  - exact Hs.
  - now apply IH.
Qed.

Lemma scan_directory_try_sound directory patterns :
  sound self w (fst (scan_directory_try self w directory patterns)).
Proof.
  unfold scan_directory_try. destruct patterns as [|pattern patterns].
  - destruct (rglob w directory "*") as [paths|e].
    + apply scan_files_sound, sound_empty.
    + apply sound_empty.
  - apply scan_patterns_sound, sound_empty.
Qed.

Lemma _scan_directory_sound directory patterns r :
  _scan_directory self w directory patterns = Ok r -> sound self w r.
Proof.
  unfold _scan_directory.
  destruct (path_exists w directory) as [[|]|e]; simpl; try discriminate.
  - intros E. injection E as <-. apply scan_directory_try_sound.
  - intros E. injection E as <-. apply sound_empty.
Qed.

Lemma scan_each_sound locations patterns acc r :
  sound self w acc ->
  scan_each self w locations patterns acc = Ok r -> sound self w r.
Proof.
  revert acc. induction locations as [|location locations IH];
    intros acc Hacc; simpl.
  - intros E. injection E as <-. exact Hacc.
  - destruct (_scan_directory self w location patterns) as [fs|e] eqn:Hd;
      simpl; [| discriminate].
    apply IH, sound_extend; [exact Hacc |].
    now apply (_scan_directory_sound location patterns).
Qed.

Lemma scan_profiles_sound profiles acc r :
  sound self w acc ->
  scan_profiles self w profiles acc = Ok r -> sound self w r.
Proof.
  revert acc. induction profiles as [|profile profiles IH];
    intros acc Hacc; simpl.
  - intros E. injection E as <-. exact Hacc.
  - destruct (is_dir w profile) as [[|]|e]; simpl; try discriminate.
    + destruct (_scan_directory self w (profile </> "cache2") [])
        as [fs|e] eqn:Hd; simpl; [| discriminate].
      apply IH, sound_extend; [exact Hacc |].
      now apply (_scan_directory_sound (profile </> "cache2") []).
    + now apply IH.
Qed.

Lemma scan_thumbs_sound paths acc r :
  sound self w acc ->
  scan_thumbs self w paths acc = Ok r -> sound self w r.
Proof.
  revert acc. induction paths as [|p paths IH]; intros acc Hacc; simpl.
  - intros E. injection E as <-. exact Hacc.
  - destruct (_is_safe_to_delete self p) eqn:Hsafe; [| now apply IH].
    rewrite add_file_eq. simpl. apply IH. now apply add_file_sound.
Qed.

Lemma _scan_browser_cache_sound r :
  _scan_browser_cache self w = Ok r -> sound self w r.
Proof.
  unfold _scan_browser_cache.
  match goal with
  | |- bind (scan_each self w ?ds ?ps ?a) _ = _ -> _ =>
      destruct (scan_each self w ds ps a) as [acc|e] eqn:Hacc; simpl;
        [apply scan_each_sound in Hacc; [| apply sound_empty] | discriminate]
  end.
  destruct (path_exists w _) as [[|]|e]; simpl; try discriminate.
  - destruct (iterdir w _) as [profiles|e]; simpl; [| discriminate].
    now apply scan_profiles_sound.
  - intros E. injection E as <-. exact Hacc.
Qed.

Lemma _scan_windows_cache_sound r :
  _scan_windows_cache self w = Ok r -> sound self w r.
Proof.
  unfold _scan_windows_cache.
  destruct (glob w _ _) as [paths|e]; simpl; [| discriminate].
  destruct (scan_thumbs self w paths ([], 0)) as [acc|e] eqn:Hacc; simpl;
    [| discriminate].
  apply scan_thumbs_sound in Hacc; [| apply sound_empty].
  destruct (path_exists w _) as [ex|e]; simpl; [| discriminate].
  destruct (ex && _is_safe_to_delete self _) eqn:Hc.
  - apply andb_true_iff in Hc. destruct Hc as [_ Hsafe].
    rewrite add_file_eq. intros E. injection E as <-.
    now apply add_file_sound.
  - intros E. injection E as <-. exact Hacc.
Qed.

(** Every result of [scan_category] is sound. *)
Lemma scan_category_sound category r :
  scan_category self w category = Ok r -> sound self w r.
Proof.
  unfold scan_category.
  destruct (dict_get category scan_methods) as [method|] eqn:Hm.
  - unfold dict_get, scan_methods in Hm. simpl in Hm.
    repeat match type of Hm with
           | context [if ?b then _ else _] => destruct b
           end;
      simpl in Hm; try discriminate; injection Hm as <-.
    + apply _scan_directory_sound.
    + apply _scan_directory_sound.
    + apply _scan_directory_sound.
    + apply _scan_browser_cache_sound.
    + apply _scan_windows_cache_sound.
    + apply _scan_directory_sound.
    + unfold _scan_log_files. apply scan_each_sound, sound_empty.
    + unfold _scan_old_files. apply scan_each_sound, sound_empty.
  - intros E. injection E as <-. apply sound_empty.
Qed.

End Scans.

(* ===================================================================== *)
(** * Removals *)
(* ===================================================================== *)

Section Removals.

Lemma shrinks_refl w : shrinks w w.
Proof.
  split; [reflexivity |]. exists (fun _ => true).
  symmetry. apply forallb_filter_id. now apply forallb_forall.
Qed.

Lemma filter_filter {A} (g1 g2 : A -> bool) l :
  filter g2 (filter g1 l) = filter (fun x => g1 x && g2 x) l.
Proof.
  induction l as [|x l IH]; simpl; [reflexivity |].
  destruct (g1 x); simpl; [destruct (g2 x) |]; now rewrite IH.
Qed.

Lemma shrinks_trans w1 w2 w3 :
  shrinks w1 w2 -> shrinks w2 w3 -> shrinks w1 w3.
Proof.
  intros [Hc1 [g1 H1]] [Hc2 [g2 H2]]. split; [congruence |].
  exists (fun x => g1 x && g2 x). rewrite H2, H1. apply filter_filter.
Qed.

Lemma find_filter_none {A} (f g : A -> bool) l :
  find f l = None -> find f (filter g l) = None.
Proof.
  induction l as [|x l IH]; simpl; [reflexivity |].
  destruct (f x) eqn:Hf; [discriminate |].
  intros H. destruct (g x); simpl; [rewrite Hf |]; now apply IH.
Qed.

Lemma find_filter_negb {A} (f : A -> bool) l :
  find f (filter (fun x => negb (f x)) l) = None.
Proof.
  induction l as [|x l IH]; simpl; [reflexivity |].
  destruct (f x) eqn:Hf; simpl; [| rewrite Hf]; exact IH.
Qed.

Lemma shrinks_resolve w w' p : shrinks w w' -> resolve w' p = resolve w p.
Proof. intros [Hc _]. unfold resolve. now rewrite Hc. Qed.

(** What is missing stays missing. *)
Lemma shrinks_missing w w' p :
  shrinks w w' -> lookup w p = None -> lookup w' p = None.
Proof.
  intros Hs. pose proof (shrinks_resolve w w' p Hs) as Hr.
  destruct Hs as [_ [g Hg]]. unfold lookup. rewrite Hr, Hg.
  destruct (find (at_path (resolve w p)) (entries w)) eqn:Hf;
    [discriminate |].
  intros _. now rewrite find_filter_none.
Qed.

Lemma shrinks_log_attempt w p : shrinks w (log_attempt w p).
Proof. split; [reflexivity |]. apply (shrinks_refl w). Qed.

Lemma shrinks_set_entries w p keep :
  shrinks w (set_entries (log_attempt w p) (filter keep (entries w))).
Proof. split; [reflexivity |]. now exists keep. Qed.

Lemma unlink_shrinks w p : shrinks w (snd (unlink w p)).
Proof.
  unfold unlink. destruct (lookup w p) as [e|]; simpl;
    [| apply shrinks_log_attempt].
  destruct (kind e); simpl; [| apply shrinks_log_attempt].
  destruct (can_remove e); simpl;
    [apply shrinks_set_entries | apply shrinks_log_attempt].
Qed.

Lemma unlink_attempted w p : attempted w (snd (unlink w p)) [p].
Proof.
  unfold unlink, attempted. destruct (lookup w p) as [e|]; simpl;
    [| reflexivity].
  destruct (kind e); simpl; [| reflexivity].
  destruct (can_remove e); reflexivity.
Qed.

Lemma unlink_os_only w p : os_only (fst (unlink w p)).
Proof.
  unfold unlink. destruct (lookup w p) as [e|]; simpl; [| reflexivity].
  destruct (kind e); simpl; [| reflexivity].
  destruct (can_remove e); simpl; auto.
Qed.

(** A successful [unlink] leaves nothing at the path. *)
Lemma unlink_gone w p u w' : unlink w p = (Ok u, w') -> lookup w' p = None.
Proof.
  unfold unlink. destruct (lookup w p) as [e|]; [| discriminate].
  destruct (kind e); [| discriminate].
  destruct (can_remove e); [| discriminate].
  intros E. injection E as _ <-. unfold lookup. simpl.
  replace (resolve _ p) with (resolve w p) by reflexivity.
  now rewrite find_filter_negb.
Qed.

Lemma rmtree_shrinks w p : shrinks w (rmtree_ignore_errors w p).
Proof.
  unfold rmtree_ignore_errors. destruct (is_kind Dir (lookup w p));
    [apply shrinks_set_entries | apply shrinks_log_attempt].
Qed.

Lemma rmtree_attempted w p : attempted w (rmtree_ignore_errors w p) [p].
Proof.
  unfold rmtree_ignore_errors, attempted.
  destruct (is_kind Dir (lookup w p)); reflexivity.
Qed.

End Removals.

(* ===================================================================== *)
(** * safe_remove_file and safe_remove_dir *)
(* ===================================================================== *)

Section SafeRemove.

Variable w : World.
Variable p : Path.

(** Both helpers return a flag, whatever the system does. *)
Lemma safe_remove_file_returns :
  exists b, fst (safe_remove_file w p) = Ok b.
Proof.
  unfold safe_remove_file, or_false.
  pose proof (path_exists_os_only w p) as Hex.
  destruct (path_exists w p) as [[|]|e]; simpl in *.
  - pose proof (unlink_os_only w p) as Hun.
    destruct (unlink w p) as [[u|e] w']; simpl in *; eauto.
    rewrite Hun. simpl. eauto.
  - eauto.
  - rewrite Hex. simpl. eauto.
Qed.

Lemma safe_remove_dir_returns :
  exists b, fst (safe_remove_dir w p) = Ok b.
Proof.
  unfold safe_remove_dir, or_false.
  pose proof (path_exists_os_only w p) as Hex.
  destruct (path_exists w p) as [[|]|e]; simpl in *.
  - pose proof (path_exists_os_only (rmtree_ignore_errors w p) p) as Hex'.
    destruct (path_exists (rmtree_ignore_errors w p) p) as [still|e];
      simpl in *; eauto.
    rewrite Hex'. simpl. eauto.
  - eauto.
  - rewrite Hex. simpl. eauto.
Qed.

Lemma or_false_snd (r : Result bool * World) : snd (or_false r) = snd r.
Proof.
  unfold or_false. destruct r as [[b|e] w']; simpl; [reflexivity |].
  now destruct (is_OSError e).
Qed.

Lemma or_false_true (r : Result bool * World) :
  fst (or_false r) = Ok true -> fst r = Ok true.
Proof.
  unfold or_false. destruct r as [[b|e] w']; simpl; [auto |].
  destruct (is_OSError e); simpl; discriminate.
Qed.

Lemma safe_remove_file_shrinks : shrinks w (snd (safe_remove_file w p)).
Proof.
  unfold safe_remove_file. rewrite or_false_snd.
  destruct (path_exists w p) as [[|]|e]; simpl; try apply shrinks_refl.
  pose proof (unlink_shrinks w p) as H.
  destruct (unlink w p) as [[u|e] w']; exact H.
Qed.

Lemma safe_remove_dir_shrinks : shrinks w (snd (safe_remove_dir w p)).
Proof.
  unfold safe_remove_dir. rewrite or_false_snd.
  destruct (path_exists w p) as [[|]|e]; simpl; try apply shrinks_refl.
  pose proof (rmtree_shrinks w p) as H.
  destruct (path_exists (rmtree_ignore_errors w p) p); exact H.
Qed.

(** Each helper attempts at most one removal, and only of a path it found
    on disk. *)
Lemma safe_remove_file_attempted :
  attempted w (snd (safe_remove_file w p)) [] \/
  (attempted w (snd (safe_remove_file w p)) [p] /\ present w p).
Proof.
  unfold safe_remove_file. rewrite or_false_snd. unfold attempted.
  destruct (path_exists w p) as [[|]|e] eqn:Hex; simpl;
    try (left; now rewrite app_nil_r).
  right. split; [| now apply path_exists_true].
  pose proof (unlink_attempted w p) as H.
  destruct (unlink w p) as [[u|e] w']; exact H.
Qed.

Lemma safe_remove_dir_attempted :
  attempted w (snd (safe_remove_dir w p)) [] \/
  (attempted w (snd (safe_remove_dir w p)) [p] /\ present w p).
Proof.
  unfold safe_remove_dir. rewrite or_false_snd. unfold attempted.
  destruct (path_exists w p) as [[|]|e] eqn:Hex; simpl;
    try (left; now rewrite app_nil_r).
  right. split; [| now apply path_exists_true].
  pose proof (rmtree_attempted w p) as H.
  destruct (path_exists (rmtree_ignore_errors w p) p); exact H.
Qed.

(** A reported success means the path is gone. *)
Lemma safe_remove_file_gone :
  fst (safe_remove_file w p) = Ok true ->
  lookup (snd (safe_remove_file w p)) p = None.
Proof.
  unfold safe_remove_file. rewrite or_false_snd. intros H.
  apply or_false_true in H. revert H.
  destruct (path_exists w p) as [[|]|e]; simpl; try discriminate.
  destruct (unlink w p) as [[u|e] w'] eqn:Hu; simpl; [| discriminate].
  intros _. now apply (unlink_gone w p u).
Qed.

Lemma safe_remove_dir_gone :
  fst (safe_remove_dir w p) = Ok true ->
  lookup (snd (safe_remove_dir w p)) p = None.
Proof.
  unfold safe_remove_dir. rewrite or_false_snd. intros H.
  apply or_false_true in H. revert H.
  destruct (path_exists w p) as [[|]|e]; simpl; try discriminate.
  destruct (path_exists (rmtree_ignore_errors w p) p) as [[|]|e] eqn:Hex;
    simpl; try discriminate.
  intros _. now apply path_exists_false.
Qed.

End SafeRemove.

(* ===================================================================== *)
(** * clean_files *)
(* ===================================================================== *)

Section CleanOne.

Variable self : WindowsCleaner.
Variable w : World.
Variable p : Path.

Lemma removal_returns isf : exists b, fst (removal w p isf) = Ok b.
Proof.
  destruct isf; [apply safe_remove_file_returns | apply safe_remove_dir_returns].
Qed.

Lemma removal_shrinks isf : shrinks w (snd (removal w p isf)).
Proof.
  destruct isf; [apply safe_remove_file_shrinks | apply safe_remove_dir_shrinks].
Qed.

Lemma removal_attempted isf :
  attempted w (snd (removal w p isf)) [] \/
  (attempted w (snd (removal w p isf)) [p] /\ present w p).
Proof.
  destruct isf;
    [apply safe_remove_file_attempted | apply safe_remove_dir_attempted].
Qed.

Lemma removal_gone isf :
  fst (removal w p isf) = Ok true -> lookup (snd (removal w p isf)) p = None.
Proof.
  destruct isf; [apply safe_remove_file_gone | apply safe_remove_dir_gone].
Qed.

(** The loop body, case by case. *)
Lemma clean_try_cases :
  (lookup w p = None /\ clean_try self w p = (Ok Missing, w)) \/
  (exists e, path_exists w p = Raise e /\ clean_try self w p = (Raise e, w)) \/
  (path_exists w p = Ok true /\ _is_safe_to_delete self p = false /\
   clean_try self w p = (Ok Rejected, w)) \/
  (exists e, path_exists w p = Ok true /\ safe self p /\
             clean_try self w p = (Raise e, w)) \/
  (exists isf b,
      path_exists w p = Ok true /\ safe self p /\
      fst (removal w p isf) = Ok b /\
      clean_try self w p
        = (Ok (Attempted b (file_size w p)), snd (removal w p isf))).
Proof.
  unfold clean_try.
  destruct (path_exists w p) as [[|]|e] eqn:Hex.
  - destruct (_is_safe_to_delete self p) eqn:Hsafe; simpl.
    + rewrite get_file_size_file_size.
      destruct (is_file w p) as [isf|e] eqn:Hf.
      * right. right. right. right. exists isf.
        destruct (removal_returns isf) as [b Hb]. exists b.
        fold (removal w p isf). destruct (removal w p isf) as [r w'].
        simpl in Hb. subst r. auto.
      * right. right. right. left. exists e. auto.
    + right. right. left. auto.
  - left. split; [now apply path_exists_false | reflexivity].
  - right. left. exists e. auto.
Qed.

Lemma clean_try_shrinks : shrinks w (snd (clean_try self w p)).
Proof.
  destruct clean_try_cases
    as [[_ ->] | [[e [_ ->]] | [[_ [_ ->]] | [[e [_ [_ ->]]] |
        [isf [b [_ [_ [_ ->]]]]]]]]]; simpl;
    try apply shrinks_refl.
  apply removal_shrinks.
Qed.

(** The loop body attempts at most one removal, and then of a path that
    is on disk and passes the safety filter. *)
Lemma clean_try_attempted :
  attempted w (snd (clean_try self w p)) [] \/
  (attempted w (snd (clean_try self w p)) [p] /\ safe self p /\ present w p).
Proof.
  destruct clean_try_cases
    as [[_ ->] | [[e [_ ->]] | [[_ [_ ->]] | [[e [_ [_ ->]]] |
        [isf [b [_ [Hsafe [_ ->]]]]]]]]]; simpl;
    try (left; unfold attempted; now rewrite app_nil_r).
  destruct (removal_attempted isf) as [H | [H Hp]]; [now left |].
  right. auto.
Qed.

Lemma clean_try_missing :
  lookup w p = None -> clean_try self w p = (Ok Missing, w).
Proof.
  intros H. unfold clean_try. now rewrite (path_exists_missing w p H).
Qed.

Lemma clean_try_rejected :
  path_exists w p = Ok true -> _is_safe_to_delete self p = false ->
  clean_try self w p = (Ok Rejected, w).
Proof. intros Hex Hsafe. unfold clean_try. now rewrite Hex, Hsafe. Qed.

(** An exception leaves the loop body before anything was removed. *)
Lemma clean_try_raise e :
  fst (clean_try self w p) = Raise e -> snd (clean_try self w p) = w.
Proof.
  destruct clean_try_cases
    as [[_ ->] | [[e' [_ ->]] | [[_ [_ ->]] | [[e' [_ [_ ->]]] |
        [isf [b [_ [_ [_ ->]]]]]]]]]; simpl; auto; discriminate.
Qed.

(** After a pass that counted no error, the path is not on disk. *)
Lemma clean_try_no_error n :
  errors (count (fst (clean_try self w p)) n) = errors n ->
  lookup (snd (clean_try self w p)) p = None.
Proof.
  destruct clean_try_cases
    as [[Hm ->] | [[e [_ ->]] | [[_ [_ ->]] | [[e [_ [_ ->]]] |
        [isf [b [_ [_ [Hb ->]]]]]]]]]; simpl; try lia; auto.
  destruct b; simpl; [| lia].
  intros _. now apply removal_gone.
Qed.

Lemma clean_try_size b size :
  fst (clean_try self w p) = Ok (Attempted b size) -> 0 <= size.
Proof.
  destruct clean_try_cases
    as [[_ ->] | [[e [_ ->]] | [[_ [_ ->]] | [[e [_ [_ ->]]] |
        [isf [b' [_ [_ [_ ->]]]]]]]]]; simpl; try discriminate.
  intros E. injection E as _ <-. apply file_size_nonneg.
Qed.

End CleanOne.

Section CleanLoop.

Variable self : WindowsCleaner.

Lemma clean_loop_app files1 files2 st :
  clean_loop self (files1 ++ files2) st
  = clean_loop self files2 (clean_loop self files1 st).
Proof.
  revert st. induction files1 as [|p files1 IH]; intros st; simpl;
    [reflexivity | apply IH].
Qed.

Lemma clean_one_eq p n w :
  clean_one self p (n, w)
  = (count (fst (clean_try self w p)) n, snd (clean_try self w p)).
Proof.
  unfold clean_one. simpl. now destruct (clean_try self w p).
Qed.

(** Each way out of the loop body moves at most one counter, by one. *)
Lemma count_step r n :
  removed n <= removed (count r n) /\
  errors n <= errors (count r n) /\
  removed (count r n) + errors (count r n) <= removed n + errors n + 1.
Proof.
  destruct r as [[| |[|] size]|e]; simpl; lia.
Qed.

Lemma clean_loop_counts files n w :
  let st := clean_loop self files (n, w) in
  removed n <= removed (fst st) /\
  errors n <= errors (fst st) /\
  removed (fst st) + errors (fst st)
    <= removed n + errors n + Z.of_nat (length files).
Proof.
  revert n w. induction files as [|p files IH]; intros n w.
  - simpl. lia.
  - cbn [clean_loop]. rewrite clean_one_eq.
    specialize (IH (count (fst (clean_try self w p)) n)
                   (snd (clean_try self w p))).
    pose proof (count_step (fst (clean_try self w p)) n) as Hc.
    cbv zeta in *. rewrite length_cons, Nat2Z.inj_succ. lia.
Qed.

Lemma clean_loop_size_freed files n w :
  0 <= size_freed n ->
  0 <= size_freed (fst (clean_loop self files (n, w))).
Proof.
  revert n w. induction files as [|p files IH]; intros n w Hn;
    [exact Hn |].
  cbn [clean_loop]. rewrite clean_one_eq. apply IH.
  destruct (fst (clean_try self w p)) as [[| |[|] size]|e] eqn:Hr; simpl;
    try exact Hn.
  apply clean_try_size in Hr. lia.
Qed.

Lemma clean_loop_shrinks files n w :
  shrinks w (snd (clean_loop self files (n, w))).
Proof.
  revert n w. induction files as [|p files IH]; intros n w;
    [apply shrinks_refl |].
  cbn [clean_loop]. rewrite clean_one_eq.
  eapply shrinks_trans; [apply (clean_try_shrinks self w p) | apply IH].
Qed.

(** The removals attempted by the loop: a selection of the listed paths,
    in order, each of which passes the safety filter. *)
Lemma clean_loop_attempted files n w :
  exists l,
    attempted w (snd (clean_loop self files (n, w))) l /\
    subseq l files /\ Forall (safe self) l.
Proof.
  revert n w. induction files as [|p files IH]; intros n w.
  - exists []. repeat split; [| constructor | constructor].
    unfold attempted. simpl. now rewrite app_nil_r.
  - cbn [clean_loop]. rewrite clean_one_eq.
    destruct (IH (count (fst (clean_try self w p)) n)
                 (snd (clean_try self w p))) as [l [Hl [Hsub Hsafe]]].
    destruct (clean_try_attempted self w p) as [H0 | [H1 [Hp _]]].
    + exists l. repeat split; [| now constructor | exact Hsafe].
      unfold attempted in *. rewrite Hl, H0. now rewrite app_nil_r.
    + exists (p :: l). repeat split; [| now constructor | now constructor].
      unfold attempted in *. rewrite Hl, H1. now rewrite <- app_assoc.
Qed.

Lemma attempted_new w w' l : attempted w w' l -> new_attempts w w' = l.
Proof.
  unfold attempted, new_attempts. intros ->.
  rewrite skipn_app, skipn_all, Nat.sub_diag. reflexivity.
Qed.

(** When no error is counted, every listed path is off the disk at the
    end. *)
Lemma clean_loop_no_error files n w :
  errors (fst (clean_loop self files (n, w))) = errors n ->
  Forall (fun p => lookup (snd (clean_loop self files (n, w))) p = None)
         files.
Proof.
  revert n w. induction files as [|p files IH]; intros n w; [constructor |].
  cbn [clean_loop]. rewrite clean_one_eq. intros Herr.
  pose proof (count_step (fst (clean_try self w p)) n) as [_ [Hc _]].
  pose proof (clean_loop_counts files (count (fst (clean_try self w p)) n)
                (snd (clean_try self w p))) as [_ [Hl _]].
  constructor.
  - apply (shrinks_missing (snd (clean_try self w p))).
    + apply clean_loop_shrinks.
    + apply (clean_try_no_error self w p n). lia.
  - apply IH. lia.
Qed.

(** Paths that are off the disk are all skipped. *)
Lemma clean_loop_all_missing files n w :
  Forall (fun p => lookup w p = None) files ->
  clean_loop self files (n, w) = (n, w).
Proof.
  induction 1 as [|p files Hp _ IH]; [reflexivity |].
  cbn [clean_loop]. rewrite clean_one_eq, (clean_try_missing self w p Hp).
  exact IH.
Qed.

End CleanLoop.

Section Outcomes.

Variable self : WindowsCleaner.

Lemma outcomes_length w files :
  length (outcomes self w files) = length files.
Proof.
  revert w. induction files as [|p files IH]; intros w; simpl;
    [reflexivity | now rewrite IH].
Qed.

Lemma tally_cons f r rs :
  tally f (r :: rs) = (if f r then 1 else 0) + tally f rs.
Proof.
  unfold tally. simpl. destruct (f r); simpl length; lia.
Qed.

Lemma count_tally r n :
  removed (count r n) = removed n + (if is_removal r then 1 else 0) /\
  errors (count r n) = errors n + (if is_failure r then 1 else 0).
Proof.
  destruct r as [[| |[|] size]|e]; simpl; lia.
Qed.

(** The counters returned are the tallies of the passes. *)
Lemma clean_loop_tally files n w :
  removed (fst (clean_loop self files (n, w)))
    = removed n + tally is_removal (outcomes self w files) /\
  errors (fst (clean_loop self files (n, w)))
    = errors n + tally is_failure (outcomes self w files).
Proof.
  revert n w. induction files as [|p files IH]; intros n w.
  - unfold tally. simpl. lia.
  - cbn [clean_loop outcomes]. rewrite clean_one_eq, !tally_cons.
    destruct (IH (count (fst (clean_try self w p)) n)
                 (snd (clean_try self w p))) as [-> ->].
    destruct (count_tally (fst (clean_try self w p)) n) as [-> ->]. lia.
Qed.

Lemma tally_partition rs :
  tally is_removal rs + tally is_failure rs + tally is_skip rs
  = Z.of_nat (length rs).
Proof.
  induction rs as [|r rs IH]; [reflexivity |].
  rewrite !tally_cons, length_cons, Nat2Z.inj_succ, <- IH.
  unfold is_failure.
  destruct r as [[| |[|] size]|e]; cbn [is_removal is_skip negb orb]; lia.
Qed.

End Outcomes.

(* ===================================================================== *)
(** * Properties of scanning *)
(* ===================================================================== *)



(** C1. The safety filter guards both ends.  Every path in a result of
    [scan_category] passed [_is_safe_to_delete].  [clean_files] asks the
    filter again before it removes anything: every removal it attempts is
    of a path the filter accepts, and when the turn of a path comes that
    is on disk but fails the filter, the pass counts one more error and
    leaves the machine, its log of attempted removals included, as it
    was. *)
Theorem safety_filter_guards_scan_and_clean
  (self : WindowsCleaner) (w : World) :
  (forall category files total_size,
      scan_category self w category = Ok (files, total_size) ->
      Forall (safe self) files) /\
  (forall files,
      Forall (safe self)
             (new_attempts w (snd (clean_files self w files)))) /\
  (forall files1 p files2,
      let st := clean_files self w files1 in
      path_exists (snd st) p = Ok true ->
      _is_safe_to_delete self p = false ->
      clean_one self p st = (one_more_error (fst st), snd st) /\
      clean_files self w (files1 ++ p :: files2)
      = clean_loop self files2 (one_more_error (fst st), snd st)).
Proof.
  split; [| split].
  - intros category files total_size H.
    apply scan_category_sound in H. now destruct H as [H _].
  - intros files. unfold clean_files.
    destruct (clean_loop_attempted self files (mkCounters 0 0 0) w)
      as [l [Hl [_ Hsafe]]].
    now rewrite (attempted_new _ _ _ Hl).
  - intros files1 p files2 st Hex Hsafe.
    assert (Hone : clean_one self p st = (one_more_error (fst st), snd st)).
    { destruct st as [n w1]. rewrite clean_one_eq. simpl in *.
      now rewrite (clean_try_rejected self w1 p Hex Hsafe). }
    split; [exact Hone |].
    unfold clean_files. rewrite clean_loop_app. cbn [clean_loop].
    fold (clean_files self w files1). fold st. now rewrite Hone.
Qed.

Lemma safety_filter_guards_scan_and_clean_witness :
  Forall (safe Scenario.cleaner) [Scenario.temp_file "session.dat"] /\
  clean_files Scenario.cleaner Scenario.temp_with_exe
    ([Scenario.temp_file "session.dat"] ++ Scenario.temp_file "setup.exe" :: [])
  = clean_loop Scenario.cleaner []
      (one_more_error
         (fst (clean_files Scenario.cleaner Scenario.temp_with_exe
                 [Scenario.temp_file "session.dat"])),
       snd (clean_files Scenario.cleaner Scenario.temp_with_exe
              [Scenario.temp_file "session.dat"])).
Proof.
  pose proof (safety_filter_guards_scan_and_clean
                Scenario.cleaner Scenario.temp_with_exe) as [Hscan [_ Hclean]].
  split.
  - apply (Hscan "temp_user" _ 2048). vm_compute. reflexivity.
  - apply (Hclean [Scenario.temp_file "session.dat"]
                  (Scenario.temp_file "setup.exe") []);
      vm_compute; reflexivity.
Defined.

(* ===================================================================== *)
(** * Properties of cleaning *)
(* ===================================================================== *)

(** C2. [clean_files] is total over its input list.  The loop makes one
    pass per listed path, whatever the earlier passes did: the passes are
    as many as the paths, and the result for a list is the result for any
    of its initial parts carried on through the rest.  A pass whose body
    raises is counted as one error and changes nothing else.  The
    returned counters are the tallies of the passes that removed their
    path and of those that failed, so their sum never exceeds the length
    of the list; and the removals attempted are a selection of the list
    in its order, at most one for each listed path. *)
Theorem clean_files_processes_every_path
  (self : WindowsCleaner) (w : World) (files : list Path) :
  let st := clean_files self w files in
  length (outcomes self w files) = length files /\
  (forall files1 files2,
      files = (files1 ++ files2)%list ->
      st = clean_loop self files2 (clean_files self w files1)) /\
  (forall p n w0 e,
      fst (clean_try self w0 p) = Raise e ->
      clean_one self p (n, w0) = (one_more_error n, w0)) /\
  removed (fst st) = tally is_removal (outcomes self w files) /\
  errors (fst st) = tally is_failure (outcomes self w files) /\
  0 <= removed (fst st) /\ 0 <= errors (fst st) /\
  removed (fst st) + errors (fst st) <= Z.of_nat (length files) /\
  subseq (new_attempts w (snd st)) files.
Proof.
  cbv zeta. unfold clean_files.
  pose proof (clean_loop_tally self files (mkCounters 0 0 0) w) as [Hr He].
  pose proof (clean_loop_counts self files (mkCounters 0 0 0) w) as Hc.
  cbv zeta in Hc. simpl in Hr, He, Hc.
  repeat split; try lia.
  - apply outcomes_length.
  - intros files1 files2 ->. apply clean_loop_app.
  - intros p n w0 e H. rewrite clean_one_eq.
    rewrite (clean_try_raise self w0 p e H), H. reflexivity.
  - destruct (clean_loop_attempted self files (mkCounters 0 0 0) w)
      as [l [Hl [Hsub _]]].
    now rewrite (attempted_new _ _ _ Hl).
Qed.

Lemma clean_files_processes_every_path_witness :
  clean_one Scenario.cleaner (Scenario.temp_file "ghost.dat")
    (mkCounters 4 120 1, Scenario.machine
       [("C:\Users\david\AppData\Local\Temp\ghost.dat",
         Scenario.a_hidden_file 9)])
  = (one_more_error (mkCounters 4 120 1), Scenario.machine
       [("C:\Users\david\AppData\Local\Temp\ghost.dat",
         Scenario.a_hidden_file 9)]).
Proof.
  apply (clean_files_processes_every_path Scenario.cleaner
           Scenario.two_left Scenario.three_listed) with (e := PermissionError).
  vm_compute. reflexivity.
Defined.

(** C6. [clean_files] passes silently over a path that is not on disk
    when its turn comes: the pass changes neither the counters nor the
    machine, so the call returns what it returns for the list without
    that path.  In particular, for a list of three scanned files of which
    one was deleted by another process before the call, it returns
    [removed = 2] and [errors = 0]. *)
Theorem missing_path_is_skipped :
  (forall (self : WindowsCleaner) (w : World) files1 p files2,
      let st := clean_files self w files1 in
      path_exists (snd st) p = Ok false ->
      clean_one self p st = st /\
      clean_files self w (files1 ++ p :: files2)
      = clean_files self w (files1 ++ files2)) /\
  (Forall (present Scenario.three_temp_files) Scenario.three_listed /\
   lookup Scenario.two_left (Scenario.temp_file "b.tmp") = None /\
   fst (clean_files Scenario.cleaner Scenario.two_left Scenario.three_listed)
   = mkCounters 2 40 0).
Proof.
  split.
  - intros self w files1 p files2 st Hex.
    assert (Hone : clean_one self p st = st).
    { destruct st as [n w1]. rewrite clean_one_eq. simpl in *.
      apply path_exists_false in Hex.
      now rewrite (clean_try_missing self w1 p Hex). }
    split; [exact Hone |].
    unfold clean_files. rewrite !clean_loop_app. cbn [clean_loop].
    fold (clean_files self w files1). fold st. now rewrite Hone.
  - split; [| split].
    + repeat constructor; vm_compute; discriminate.
    + vm_compute. reflexivity.
    + vm_compute. reflexivity.
Qed.

Lemma missing_path_is_skipped_witness :
  clean_files Scenario.cleaner Scenario.two_left
    ([Scenario.temp_file "a.tmp"] ++ Scenario.temp_file "b.tmp"
       :: [Scenario.temp_file "c.tmp"])
  = clean_files Scenario.cleaner Scenario.two_left
      ([Scenario.temp_file "a.tmp"] ++ [Scenario.temp_file "c.tmp"]).
Proof.
  apply (proj1 missing_path_is_skipped Scenario.cleaner Scenario.two_left
           [Scenario.temp_file "a.tmp"] (Scenario.temp_file "b.tmp")
           [Scenario.temp_file "c.tmp"]).
  vm_compute. reflexivity.
Defined.

(* ===================================================================== *)
(** * Sizes *)
(* ===================================================================== *)

(** C10. [get_file_size] never raises and returns a non-negative
    integer; it returns [0] when the path is not on disk and when the
    metadata of the file cannot be read.  Consequently a file met by a
    scan whose size cannot be read is still listed and adds [0] to the
    total, and the total of every scan and the bytes freed by every
    cleaning are non-negative.  For instance, a temp directory holding a
    700-byte file whose size cannot be read and a 300-byte file is
    scanned as both files, with a total of 300. *)
Theorem get_file_size_never_raises :
  (forall (self : WindowsCleaner) (w : World),
      (forall p, exists n, get_file_size w p = Ok n /\ 0 <= n) /\
      (forall p, lookup w p = None -> get_file_size w p = Ok 0) /\
      (forall p e, is_file w p = Raise e -> get_file_size w p = Ok 0) /\
      (forall p e,
          is_file w p = Ok true -> stat_st_size w p = Raise e ->
          get_file_size w p = Ok 0) /\
      (forall p e rest acc,
          is_file w p = Ok true -> safe self p ->
          stat_st_size w p = Raise e ->
          scan_files self w (p :: rest) acc
          = scan_files self w rest ((fst acc ++ [p])%list, snd acc)) /\
      (forall category files total_size,
          scan_category self w category = Ok (files, total_size) ->
          0 <= total_size) /\
      (forall files, 0 <= size_freed (fst (clean_files self w files)))) /\
  scan_category Scenario.cleaner Scenario.temp_unreadable "temp_user"
  = Ok ([Scenario.temp_file "busy.dat"; Scenario.temp_file "idle.dat"], 300).
Proof.
  split; [| vm_compute; reflexivity].
  intros self w. repeat split.
  - apply get_file_size_returns.
  - apply get_file_size_missing.
  - apply get_file_size_probe_fails.
  - apply get_file_size_stat_fails.
  - intros p e rest acc Hf Hsafe Hs. cbn [scan_files].
    unfold safe in Hsafe. rewrite Hf, Hsafe. cbn [andb].
    unfold add_file. rewrite (get_file_size_stat_fails w p e Hf Hs).
    cbn [bind]. now rewrite Z.add_0_r.
  - intros category files total_size H.
    apply scan_category_sound in H. destruct H as [_ H]. simpl in H.
    rewrite H. apply sum_of_sizes_nonneg.
  - intros files. unfold clean_files.
    apply clean_loop_size_freed. simpl. lia.
Qed.

Lemma get_file_size_never_raises_witness :
  get_file_size Scenario.temp_unreadable (Scenario.temp_file "busy.dat")
  = Ok 0.
Proof.
  apply (proj1 get_file_size_never_raises Scenario.cleaner
           Scenario.temp_unreadable) with (e := PermissionError);
    vm_compute; reflexivity.
Defined.

(* ===================================================================== *)
(** * Roots that are absent *)
(* ===================================================================== *)

(** A root that is not on disk is scanned as empty. *)
Lemma _scan_directory_missing
  (self : WindowsCleaner) (w : World) (directory : Path)
  (patterns : list string) :
  lookup w directory = None ->
  _scan_directory self w directory patterns = Ok ([], 0).
Proof.
  intros H. unfold _scan_directory.
  now rewrite (path_exists_missing w directory H).
Qed.

(** Every scan that walks its roots through [_scan_directory] returns
    the empty result when none of its roots is on disk. *)
Theorem missing_roots_scan_empty (self : WindowsCleaner) (w : World) :
  (lookup w (temp_dir self) = None ->
   scan_category self w "temp_user" = Ok ([], 0)) /\
  (lookup w (parse "C:/Windows/Temp") = None ->
   scan_category self w "temp_windows" = Ok ([], 0)) /\
  (lookup w (parse "C:/Windows/Prefetch") = None ->
   scan_category self w "prefetch" = Ok ([], 0)) /\
  (lookup w (app_data self </> "Microsoft/Windows/Recent") = None ->
   scan_category self w "recent_files" = Ok ([], 0)) /\
  (lookup w (temp_dir self) = None ->
   lookup w (local_app_data self) = None ->
   lookup w (parse "C:/Windows/Logs") = None ->
   scan_category self w "log_files" = Ok ([], 0)) /\
  (lookup w (temp_dir self) = None ->
   lookup w (user_home self) = None ->
   lookup w (local_app_data self) = None ->
   scan_category self w "old_files" = Ok ([], 0)).
Proof.
  unfold scan_category. cbn [dict_get scan_methods find fst snd option_map
                             String.eqb Ascii.eqb Bool.eqb].
  unfold _scan_temp_user, _scan_temp_windows, _scan_prefetch,
    _scan_recent_files, _scan_log_files, _scan_old_files.
  repeat split; intros; cbn [scan_each];
    repeat (rewrite _scan_directory_missing by assumption; cbn [bind]);
    reflexivity.
Qed.

Lemma missing_roots_scan_empty_witness :
  scan_category Scenario.cleaner Scenario.temp_with_exe "prefetch"
  = Ok ([], 0).
Proof.
  apply (proj1 (proj2 (proj2 (missing_roots_scan_empty
                                Scenario.cleaner Scenario.temp_with_exe)))).
  vm_compute. reflexivity.
Defined.

(** C8, at the failing input.  With [TEMP] unset the constructor sets
    [temp_dir] to [Path('')], which is the working directory of the
    process and exists; the scan of the user's temp files then lists the
    files of that directory.  Started from the documents folder, it lists
    a document there under its relative name, which the protected
    directories, all absolute, do not cover, and [clean_files] removes
    it. *)
Theorem unset_temp_scans_working_directory :
  temp_dir Scenario.cleaner_without_temp = parse "" /\
  path_exists Scenario.in_documents (parse "") = Ok true /\
  scan_category Scenario.cleaner_without_temp Scenario.in_documents
    "temp_user"
  = Ok ([parse "thesis.txt"], 5000) /\
  _is_safe_to_delete Scenario.cleaner_without_temp
    (parse "C:/Users/david/Documents/thesis.txt") = false /\
  fst (clean_files Scenario.cleaner_without_temp Scenario.in_documents
         [parse "thesis.txt"])
  = mkCounters 1 5000 0.
Proof. repeat split; vm_compute; reflexivity. Qed.

(* ===================================================================== *)
(** * What a directory scan lists *)
(* ===================================================================== *)

Local Open Scope list_scope.

Section Listings.

Variable w : World.

Lemma last_app_nonempty {A} (xs ys : list A) (d : A) :
  ys <> [] -> last (xs ++ ys) d = last ys d.
Proof.
  intros Hys. induction xs as [|x xs IH]; [reflexivity |].
  simpl. rewrite IH. destruct (xs ++ ys) eqn:E; [| reflexivity].
  apply app_eq_nil in E. tauto.
Qed.

Lemma last_skipn {A} (n : nat) (xs : list A) (d : A) :
  (n < length xs)%nat -> last (skipn n xs) d = last xs d.
Proof.
  intros H. rewrite <- (firstn_skipn n xs) at 2.
  rewrite last_app_nonempty; [reflexivity |].
  intros E. apply (f_equal (@length A)) in E.
  rewrite length_skipn in E. simpl in E. lia.
Qed.

(** An entry found by a listing is reported beneath the directory as the
    caller wrote it, under the name it has on disk. *)
Lemma relocate_beneath d q k :
  beneath (match k with O => None | S _ => Some k end) (resolve w d) q = true ->
  strictly_beneath d (relocate w d q) /\ name (relocate w d q) = name q.
Proof.
  unfold beneath. intros H. apply andb_true_iff in H. destruct H as [_ H].
  assert (Hlt : (length (names (resolve w d)) < length (names q))%nat).
  { destruct k; [now apply Nat.ltb_lt |]. apply Nat.eqb_eq in H. lia. }
  assert (Hne : skipn (length (names (resolve w d))) (names q) <> []).
  { intros E. apply (f_equal (@length string)) in E.
    rewrite length_skipn in E. simpl in E. lia. }
  split.
  - split; [reflexivity |]. now eexists.
  - unfold name, relocate. cbn [names].
    rewrite last_app_nonempty by exact Hne. now apply last_skipn.
Qed.

Lemma select_beneath k d pattern p :
  In p (select w (match k with O => None | S _ => Some k end) d pattern) ->
  strictly_beneath d p /\ Str.fnmatch (name p) pattern = true.
Proof.
  unfold select. intros H. apply in_map_iff in H.
  destruct H as [pe [<- H]]. apply filter_In in H. destruct H as [_ H].
  apply andb_true_iff in H. destruct H as [Hb Hm].
  apply andb_true_iff in Hb. destruct Hb as [Hb _].
  destruct (relocate_beneath d (fst pe) k Hb) as [H1 H2].
  split; [exact H1 | now rewrite H2].
Qed.

Lemma listing_beneath d pattern p :
  In p (listing w d pattern) ->
  strictly_beneath d p /\ Str.fnmatch (name p) pattern = true.
Proof.
  unfold listing, rglob. destruct (is_dir w d) as [[|]|e]; simpl;
    try contradiction.
  apply (select_beneath 0).
Qed.

End Listings.

Section ScanLoop.

Variable self : WindowsCleaner.
Variable w : World.

Lemma accepted_true p :
  accepted self w p = true <-> is_file w p = Ok true /\ safe self p.
Proof.
  unfold accepted, safe. destruct (is_file w p) as [[|]|e]; simpl;
    intuition congruence.
Qed.

Lemma scan_files_app paths1 paths2 acc :
  scan_files self w (paths1 ++ paths2) acc
  = match scan_files self w paths1 acc with
    | (acc', None) => scan_files self w paths2 acc'
    | (acc', Some e) => (acc', Some e)
    end.
Proof.
  revert acc. induction paths1 as [|p paths1 IH]; intros acc;
    [reflexivity |].
  cbn [app scan_files]. destruct (is_file w p) as [isf|e]; [| reflexivity].
  destruct (isf && _is_safe_to_delete self p).
  - rewrite add_file_eq. apply IH.
  - apply IH.
Qed.

(** A walk that meets no denied lookup lists exactly the accepted
    candidates, in order. *)
Lemma scan_files_exact paths acc :
  Forall (answers w) paths ->
  scan_files self w paths acc
  = (((fst acc ++ filter (accepted self w) paths)%list,
      snd acc + sum_of_sizes w (filter (accepted self w) paths)), None).
Proof.
  intros H. revert acc. induction H as [|p paths [isf Hp] _ IH]; intros acc.
  - simpl. rewrite app_nil_r, Z.add_0_r. now destruct acc.
  - assert (Ha : accepted self w p = isf && _is_safe_to_delete self p)
      by (unfold accepted; now rewrite Hp).
    cbn [scan_files filter]. rewrite Hp, Ha.
    destruct (isf && _is_safe_to_delete self p).
    + rewrite add_file_eq, IH. cbn [fst snd].
      rewrite <- app_assoc. cbn [app].
      change (sum_of_sizes w (p :: filter (accepted self w) paths))
        with (file_size w p + sum_of_sizes w (filter (accepted self w) paths)).
      now rewrite Z.add_assoc.
    + apply IH.
Qed.

(** The first denied lookup ends it. *)
Lemma scan_files_denied before p after e acc :
  Forall (answers w) before -> is_file w p = Raise e ->
  scan_files self w (before ++ p :: after) acc
  = (((fst acc ++ filter (accepted self w) before)%list,
      snd acc + sum_of_sizes w (filter (accepted self w) before)), Some e).
Proof.
  intros Hb Hp. rewrite scan_files_app, (scan_files_exact before acc Hb).
  cbn [scan_files]. now rewrite Hp.
Qed.

(** Whatever ends the loop, what it has listed was accepted. *)
Lemma scan_files_accepted paths acc :
  Forall (fun p => In p (fst acc) \/ (In p paths /\ accepted self w p = true))
         (fst (fst (scan_files self w paths acc))).
Proof.
  revert acc. induction paths as [|p paths IH]; intros acc.
  - simpl. apply Forall_forall. auto.
  - cbn [scan_files]. destruct (is_file w p) as [isf|e] eqn:Hp.
    + destruct (isf && _is_safe_to_delete self p) eqn:Hc.
      * rewrite add_file_eq.
        eapply Forall_impl; [| apply IH]. cbn [fst].
        intros q [Hq | [Hq Ha]].
        -- apply in_app_or in Hq. destruct Hq as [Hq | [<- | []]].
           ++ now left.
           ++ right. split; [now left |]. unfold accepted. now rewrite Hp.
        -- right. split; [now right | exact Ha].
      * eapply Forall_impl; [| apply IH].
        intros q [Hq | [Hq Ha]]; [now left |].
        right. split; [now right | exact Ha].
    + simpl. apply Forall_forall. auto.
Qed.

End ScanLoop.

Section DirectoryScan.

Variable self : WindowsCleaner.
Variable w : World.

Lemma rglob_listing d pattern b :
  path_exists w d = Ok b -> rglob w d pattern = Ok (listing w d pattern).
Proof.
  unfold listing, rglob, is_dir, path_exists.
  destruct (probe w d) as [oe|e]; simpl; [reflexivity | discriminate].
Qed.

Lemma sum_of_sizes_app' xs ys :
  sum_of_sizes w (xs ++ ys) = sum_of_sizes w xs + sum_of_sizes w ys.
Proof. apply sum_of_sizes_app. Qed.

Lemma scan_patterns_exact d patterns acc :
  (forall pattern, rglob w d pattern = Ok (listing w d pattern)) ->
  Forall (fun pattern => Forall (answers w) (listing w d pattern)) patterns ->
  let fs := flat_map (fun pattern =>
                        filter (accepted self w) (listing w d pattern))
                     patterns in
  scan_patterns self w d patterns acc
  = ((fst acc ++ fs, snd acc + sum_of_sizes w fs), None).
Proof.
  intros Hr H. revert acc. induction H as [|pattern patterns Hp _ IH];
    intros acc; cbv zeta in *.
  - simpl. rewrite app_nil_r, Z.add_0_r. now destruct acc.
  - cbn [scan_patterns flat_map]. rewrite Hr, (scan_files_exact self w _ acc Hp).
    rewrite IH. cbn [fst snd].
    rewrite <- app_assoc, sum_of_sizes_app', Z.add_assoc. reflexivity.
Qed.

(** The first denied lookup ends the loop over the patterns too. *)
Lemma scan_patterns_denied d earlier pattern later before p after e acc :
  (forall pat, rglob w d pat = Ok (listing w d pat)) ->
  Forall (fun pat => Forall (answers w) (listing w d pat)) earlier ->
  listing w d pattern = before ++ p :: after ->
  Forall (answers w) before ->
  is_file w p = Raise e ->
  let fs := flat_map (fun pat => filter (accepted self w) (listing w d pat))
                     earlier
            ++ filter (accepted self w) before in
  scan_patterns self w d (earlier ++ pattern :: later) acc
  = ((fst acc ++ fs, snd acc + sum_of_sizes w fs), Some e).
Proof.
  intros Hr He Hl Hb Hp. cbv zeta. revert acc.
  induction He as [|pat earlier Hpat _ IH]; intros acc.
  - cbn [app scan_patterns flat_map]. rewrite Hr, Hl.
    now rewrite (scan_files_denied self w before p after e acc Hb Hp).
  - cbn [app scan_patterns flat_map].
    rewrite Hr, (scan_files_exact self w _ acc Hpat), IH. cbn [fst snd].
    rewrite <- !app_assoc, !sum_of_sizes_app', !Z.add_assoc. reflexivity.
Qed.

(** Without patterns the scan walks the single pattern [*]. *)
Lemma scan_directory_try_walked d patterns :
  scan_directory_try self w d patterns
  = scan_patterns self w d (patterns_walked patterns) ([], 0).
Proof.
  destruct patterns as [|pattern patterns]; [| reflexivity].
  cbn [scan_directory_try patterns_walked scan_patterns].
  destruct (rglob w d "*") as [paths|e]; [| reflexivity].
  now destruct (scan_files self w paths ([], 0)) as [acc [e|]].
Qed.

Lemma scan_patterns_accepted d patterns acc :
  Forall (fun p => In p (fst acc) \/
                   exists pattern, In pattern patterns /\
                                   In p (listing w d pattern) /\
                                   accepted self w p = true)
         (fst (fst (scan_patterns self w d patterns acc))).
Proof.
  revert acc. induction patterns as [|pattern patterns IH]; intros acc.
  - simpl. apply Forall_forall. auto.
  - cbn [scan_patterns].
    destruct (rglob w d pattern) as [paths|e] eqn:Hr;
      [| simpl; apply Forall_forall; auto].
    assert (Hl : listing w d pattern = paths) by (unfold listing; now rewrite Hr).
    pose proof (scan_files_accepted self w paths acc) as Hs.
    destruct (scan_files self w paths acc) as [acc' [e|]]; cbn [fst] in *.
    + eapply Forall_impl; [| exact Hs].
      intros q [Hq | [Hq Ha]]; [now left |].
      right. exists pattern. rewrite Hl. simpl. auto.
    + rewrite Forall_forall in Hs. eapply Forall_impl; [| apply IH].
      intros q [Hq | [pat [Hpat [Hq Ha]]]].
      * destruct (Hs q Hq) as [Hq' | [Hq' Ha]]; [now left |].
        right. exists pattern. rewrite Hl. simpl. auto.
      * right. exists pat. simpl. auto.
Qed.

End DirectoryScan.

(** The paths a directory scan lists are regular files on disk, written
    as the scanned directory followed by further names, and their final
    name matches one of the patterns the scan was given. *)
Theorem scanned_paths_are_files_beneath_root
  (self : WindowsCleaner) (w : World) (d : Path) (patterns : list string)
  (files : list Path) (total_size : Z) :
  _scan_directory self w d patterns = Ok (files, total_size) ->
  Forall (fun p =>
            is_file w p = Ok true /\ strictly_beneath d p /\
            exists pattern, In pattern (patterns_walked patterns) /\
                            Str.fnmatch (name p) pattern = true)
         files.
Proof.
  unfold _scan_directory.
  destruct (path_exists w d) as [[|]|e]; simpl; try discriminate.
  - intros E. injection E as E. apply (f_equal fst) in E. cbn [fst] in E.
    subst files.
    assert (H : Forall (fun p => exists pattern,
                          In pattern (patterns_walked patterns) /\
                          In p (listing w d pattern) /\
                          accepted self w p = true)
                       (fst (fst (scan_directory_try self w d patterns)))).
    { unfold scan_directory_try. destruct patterns as [|pattern patterns].
      - destruct (rglob w d "*") as [paths|e] eqn:Hr; [| constructor].
        eapply Forall_impl; [| apply scan_files_accepted].
        intros q Hq. simpl in Hq. destruct Hq as [[] | [Hq Ha]].
        exists "*"%string. unfold listing. rewrite Hr. simpl. auto.
      - eapply Forall_impl; [| apply scan_patterns_accepted].
        intros q Hq. simpl in Hq. destruct Hq as [[] | Hq]. exact Hq. }
    eapply Forall_impl; [| exact H].
    intros p [pattern [Hpat [Hp Ha]]].
    apply accepted_true in Ha. destruct Ha as [Hf _].
    destruct (listing_beneath w d pattern p Hp) as [Hb Hm].
    split; [exact Hf |]. split; [exact Hb |]. now exists pattern.
  - intros E. injection E as <- _. constructor.
Qed.

Lemma scanned_paths_are_files_beneath_root_witness :
  Forall (fun p =>
            is_file Scenario.three_temp_files p = Ok true /\
            strictly_beneath (temp_dir Scenario.cleaner) p /\
            exists pattern, In pattern (patterns_walked ["*.bak"; "*.tmp"]) /\
                            Str.fnmatch (name p) pattern = true)
         Scenario.three_listed.
Proof.
  apply (scanned_paths_are_files_beneath_root Scenario.cleaner
           Scenario.three_temp_files (temp_dir Scenario.cleaner)
           ["*.bak"; "*.tmp"] Scenario.three_listed 60).
  vm_compute. reflexivity.
Defined.

(** When the scanned directory is on disk and no metadata lookup is
    denied among the paths its patterns yield, the scan lists every
    accepted path, pattern by pattern and in listing order (a path that
    matches two patterns is listed twice), and nothing else. *)
Theorem scan_lists_every_accepted_file
  (self : WindowsCleaner) (w : World) (d : Path) (patterns : list string) :
  path_exists w d = Ok true ->
  Forall (fun pattern => Forall (answers w) (listing w d pattern))
         (patterns_walked patterns) ->
  _scan_directory self w d patterns
  = Ok (accepted_files self w d patterns,
        sum_of_sizes w (accepted_files self w d patterns)).
Proof.
  intros Hex Hall. unfold _scan_directory. rewrite Hex. cbn [bind negb].
  unfold accepted_files, scan_directory_try.
  destruct patterns as [|pattern patterns]; cbn [patterns_walked] in *.
  - rewrite (rglob_listing w d "*" true Hex).
    apply Forall_inv in Hall.
    rewrite (scan_files_exact self w _ ([], 0) Hall). cbn [fst snd flat_map].
    now rewrite app_nil_r.
  - rewrite (scan_patterns_exact self w d (pattern :: patterns) ([], 0)
               (fun pat => rglob_listing w d pat true Hex) Hall).
    reflexivity.
Qed.

Lemma scan_lists_every_accepted_file_witness :
  _scan_directory Scenario.cleaner Scenario.temp_with_exe
    (temp_dir Scenario.cleaner) ["*.dat"; "session*"]
  = Ok (accepted_files Scenario.cleaner Scenario.temp_with_exe
          (temp_dir Scenario.cleaner) ["*.dat"; "session*"],
        sum_of_sizes Scenario.temp_with_exe
          (accepted_files Scenario.cleaner Scenario.temp_with_exe
             (temp_dir Scenario.cleaner) ["*.dat"; "session*"])).
Proof.
  apply scan_lists_every_accepted_file.
  - vm_compute. reflexivity.
  - repeat constructor; vm_compute; eexists; reflexivity.
Defined.

(** A denied metadata lookup ends the whole scan of a directory without
    an error, under whichever pattern it is met: the paths listed under
    the earlier patterns and those listed before it under its own
    pattern are returned, the paths after it and the patterns that
    remain are not looked at. *)
Theorem denied_lookup_ends_the_scan
  (self : WindowsCleaner) (w : World) (d : Path) (patterns : list string)
  (earlier : list string) (pattern : string) (later : list string)
  (before : list Path) (p : Path) (after : list Path) (e : exn) :
  path_exists w d = Ok true ->
  patterns_walked patterns = earlier ++ pattern :: later ->
  Forall (fun pat => Forall (answers w) (listing w d pat)) earlier ->
  listing w d pattern = before ++ p :: after ->
  Forall (answers w) before ->
  is_file w p = Raise e ->
  let listed :=
    flat_map (fun pat => filter (accepted self w) (listing w d pat)) earlier
    ++ filter (accepted self w) before in
  _scan_directory self w d patterns = Ok (listed, sum_of_sizes w listed).
Proof.
  intros Hex Hpats He Hl Hb Hp. cbv zeta.
  unfold _scan_directory. rewrite Hex. cbn [bind negb].
  rewrite scan_directory_try_walked, Hpats.
  rewrite (scan_patterns_denied self w d earlier pattern later before p
             after e ([], 0)
             (fun pat => rglob_listing w d pat true Hex) He Hl Hb Hp).
  reflexivity.
Qed.

Lemma denied_lookup_ends_the_scan_witness :
  _scan_directory Scenario.cleaner Machines.temp_with_hidden
    (temp_dir Scenario.cleaner) ["a.*"; "*.tmp"; "c.*"]
  = Ok ([Scenario.temp_file "a.tmp"; Scenario.temp_file "a.tmp"], 20).
Proof.
  refine (denied_lookup_ends_the_scan Scenario.cleaner
            Machines.temp_with_hidden (temp_dir Scenario.cleaner)
            ["a.*"; "*.tmp"; "c.*"] ["a.*"] "*.tmp" ["c.*"]
            [Scenario.temp_file "a.tmp"]
            (Scenario.temp_file "ghost.tmp") [Scenario.temp_file "c.tmp"]
            PermissionError _ _ _ _ _ _).
  - vm_compute. reflexivity.
  - reflexivity.
  - repeat constructor. exists true. vm_compute. reflexivity.
  - vm_compute. reflexivity.
  - constructor; [exists true; vm_compute; reflexivity | constructor].
  - vm_compute. reflexivity.
Defined.

(* ===================================================================== *)
(** * When a scan returns and when it raises *)
(* ===================================================================== *)

Section ScanReturns.

Variable self : WindowsCleaner.
Variable w : World.

Lemma lookup_In p e :
  lookup w p = Some e -> exists q, In (q, e) (entries w).
Proof.
  unfold lookup. destruct (find _ (entries w)) as [[q e']|] eqn:Hf;
    [| discriminate].
  simpl. intros E. injection E as <-. apply find_some in Hf.
  exists q. tauto.
Qed.

Hypothesis Hprobe : no_lookup_denied w.

Lemma probe_answers p : probe w p = Ok (lookup w p).
Proof.
  unfold probe. destruct (lookup w p) as [e|] eqn:Hl; [| reflexivity].
  destruct (lookup_In p e Hl) as [q Hq].
  pose proof (proj1 (Forall_forall _ _) Hprobe (q, e) Hq) as H.
  simpl in H. now rewrite H.
Qed.

Lemma path_exists_answers p : exists b, path_exists w p = Ok b.
Proof. unfold path_exists. rewrite probe_answers. simpl. eauto. Qed.

Lemma is_dir_answers p : is_dir w p = Ok (is_kind Dir (lookup w p)).
Proof. unfold is_dir. now rewrite probe_answers. Qed.

Lemma _scan_directory_returns d patterns :
  exists r, _scan_directory self w d patterns = Ok r.
Proof.
  unfold _scan_directory. destruct (path_exists_answers d) as [b ->].
  simpl. destruct b; simpl; eauto.
Qed.

Lemma scan_each_returns locations patterns acc :
  exists r, scan_each self w locations patterns acc = Ok r.
Proof.
  revert acc. induction locations as [|d locations IH]; intros acc; simpl;
    [eauto |].
  destruct (_scan_directory_returns d patterns) as [r ->]. simpl. apply IH.
Qed.

Lemma scan_profiles_returns profiles acc :
  exists r, scan_profiles self w profiles acc = Ok r.
Proof.
  revert acc. induction profiles as [|p profiles IH]; intros acc; simpl;
    [eauto |].
  rewrite is_dir_answers. simpl.
  destruct (is_kind Dir (lookup w p)); [| apply IH].
  destruct (_scan_directory_returns (p </> "cache2") []) as [r ->].
  simpl. apply IH.
Qed.

Lemma scan_thumbs_returns paths acc :
  exists r, scan_thumbs self w paths acc = Ok r.
Proof.
  revert acc. induction paths as [|p paths IH]; intros acc; simpl; [eauto |].
  destruct (_is_safe_to_delete self p); [| apply IH].
  rewrite add_file_eq. simpl. apply IH.
Qed.

Lemma _scan_windows_cache_returns :
  exists r, _scan_windows_cache self w = Ok r.
Proof.
  unfold _scan_windows_cache, glob. cbn [String.eqb Ascii.eqb Bool.eqb].
  rewrite is_dir_answers. cbn [bind].
  match goal with
  | |- context [scan_thumbs self w ?ps ?a] =>
      destruct (scan_thumbs_returns ps a) as [acc ->]
  end.
  cbn [bind].
  match goal with
  | |- context [path_exists w ?p] =>
      destruct (path_exists_answers p) as [b ->]
  end.
  cbn [bind].
  match goal with
  | |- context [if ?c then _ else _] => destruct c
  end; [rewrite add_file_eq |]; eauto.
Qed.

Lemma iterdir_directory d :
  is_kind File (lookup w d) = false -> listable w d -> lookup w d <> None ->
  exists ps, iterdir w d = Ok ps.
Proof.
  unfold iterdir, is_kind, listable.
  destruct (lookup w d) as [e|]; [| congruence].
  intros Hk Hl _. specialize (Hl e eq_refl).
  destruct (kind e); [discriminate |]. rewrite Hl by reflexivity. eauto.
Qed.

Lemma _scan_browser_cache_returns :
  is_kind File (lookup w (firefox_profiles self)) = false ->
  listable w (firefox_profiles self) ->
  exists r, _scan_browser_cache self w = Ok r.
Proof.
  intros Hff Hlist. unfold _scan_browser_cache.
  match goal with
  | |- context [scan_each self w ?ds ?ps ?a] =>
      destruct (scan_each_returns ds ps a) as [acc ->]
  end.
  cbn [bind]. fold (firefox_profiles self).
  unfold path_exists. rewrite probe_answers. cbn [bind].
  destruct (lookup w (firefox_profiles self)) as [e|] eqn:Hl; [| eauto].
  destruct (iterdir_directory (firefox_profiles self)) as [ps ->];
    [now rewrite Hl | exact Hlist | now rewrite Hl |].
  cbn [bind]. apply scan_profiles_returns.
Qed.

End ScanReturns.

(** On a machine where no metadata lookup is denied, [scan_category]
    returns a result for every category id, provided the path where the
    Firefox profiles are looked for is not a regular file and, when it
    is a directory, lets itself be listed. *)
Theorem scan_category_returns
  (self : WindowsCleaner) (w : World) (category : string) :
  no_lookup_denied w ->
  is_kind File (lookup w (firefox_profiles self)) = false ->
  listable w (firefox_profiles self) ->
  exists r, scan_category self w category = Ok r.
Proof.
  intros Hprobe Hff Hlist. unfold scan_category.
  destruct (dict_get category scan_methods) as [method|] eqn:Hm; [| eauto].
  unfold dict_get, scan_methods in Hm. simpl in Hm.
  repeat match type of Hm with
         | context [if ?b then _ else _] => destruct b
         end;
    simpl in Hm; try discriminate; injection Hm as <-.
  - now apply _scan_directory_returns.
  - now apply _scan_directory_returns.
  - now apply _scan_directory_returns.
  - now apply _scan_browser_cache_returns.
  - now apply _scan_windows_cache_returns.
  - now apply _scan_directory_returns.
  - now apply scan_each_returns.
  - now apply scan_each_returns.
Qed.

Lemma scan_category_returns_witness :
  exists r,
    scan_category Scenario.cleaner
      (Machines.with_firefox_profile Scenario.a_dir) "browser_cache"
    = Ok r.
Proof.
  apply scan_category_returns.
  - repeat constructor.
  - vm_compute. reflexivity.
  - intros e Hl _. vm_compute in Hl. now injection Hl as <-.
Defined.

(** The profile of that machine is scanned: its cache file is listed. *)
Example firefox_cache_is_scanned :
  scan_category Scenario.cleaner
    (Machines.with_firefox_profile Scenario.a_dir) "browser_cache"
  = Ok ([firefox_profiles Scenario.cleaner </> "abc.default" </> "cache2"
           </> "entry.bin"], 64).
Proof. vm_compute. reflexivity. Qed.

(** Three ways in which [scan_category] raises.  The existence check
    on the root of a one-directory category is made outside the [try]:
    when the lookup of the root is denied, the category raises
    [PermissionError].  The listing of the directory where the Firefox
    profiles are looked for is made outside any [try] as well: when that
    path is a regular file, listing it raises [NotADirectoryError] out of
    the browser-cache scan, and when it is a directory that refuses to
    be listed, [PermissionError]. *)
Theorem scan_category_raises
  (self : WindowsCleaner) (w : World) :
  (forall category root e,
      single_root self category = Some root ->
      (scan_category self w category = Raise e <->
       path_exists w root = Raise e)) /\
  (no_lookup_denied w ->
   is_kind File (lookup w (firefox_profiles self)) = true ->
   scan_category self w "browser_cache" = Raise NotADirectoryError) /\
  (no_lookup_denied w ->
   forall e, lookup w (firefox_profiles self) = Some e ->
             kind e = Dir -> can_list e = false ->
             scan_category self w "browser_cache" = Raise PermissionError).
Proof.
  split; [| split].
  - intros category root e Hroot. unfold single_root in Hroot.
    assert (Hd : forall d patterns,
               _scan_directory self w d patterns = Raise e <->
               path_exists w d = Raise e).
    { intros d patterns. unfold _scan_directory.
      destruct (path_exists w d) as [[|]|e']; simpl;
        split; intros H; try discriminate; injection H as ->; reflexivity. }
    destruct (String.eqb category "temp_user") eqn:E1;
      [apply String.eqb_eq in E1; subst; injection Hroot as <-; apply Hd |].
    destruct (String.eqb category "temp_windows") eqn:E2;
      [apply String.eqb_eq in E2; subst; injection Hroot as <-; apply Hd |].
    destruct (String.eqb category "prefetch") eqn:E3;
      [apply String.eqb_eq in E3; subst; injection Hroot as <-; apply Hd |].
    destruct (String.eqb category "recent_files") eqn:E4;
      [apply String.eqb_eq in E4; subst; injection Hroot as <-; apply Hd |].
    discriminate.
  - intros Hprobe Hff. unfold scan_category.
    cbn [dict_get scan_methods find fst snd option_map String.eqb Ascii.eqb
         Bool.eqb].
    unfold _scan_browser_cache.
    match goal with
    | |- context [scan_each self w ?ds ?ps ?a] =>
        destruct (scan_each_returns self w Hprobe ds ps a) as [acc ->]
    end.
    cbn [bind]. fold (firefox_profiles self).
    unfold path_exists. rewrite (probe_answers w Hprobe). cbn [bind].
    unfold iterdir. unfold is_kind in Hff.
    destruct (lookup w (firefox_profiles self)) as [e|]; [| discriminate].
    destruct (kind e); [reflexivity | discriminate].
  - intros Hprobe e Hl Hk Hlist. unfold scan_category.
    cbn [dict_get scan_methods find fst snd option_map String.eqb Ascii.eqb
         Bool.eqb].
    unfold _scan_browser_cache.
    match goal with
    | |- context [scan_each self w ?ds ?ps ?a] =>
        destruct (scan_each_returns self w Hprobe ds ps a) as [acc ->]
    end.
    cbn [bind]. fold (firefox_profiles self).
    unfold path_exists. rewrite (probe_answers w Hprobe). cbn [bind].
    unfold iterdir. now rewrite Hl, Hk, Hlist.
Qed.

Lemma scan_category_raises_witness :
  scan_category Scenario.cleaner
    (Scenario.machine
       [("C:\Windows\Prefetch", Scenario.a_hidden_file 0)])
    "prefetch"
  = Raise PermissionError.
Proof.
  apply (proj1 (scan_category_raises Scenario.cleaner _) "prefetch"%string
           (parse "C:/Windows/Prefetch") PermissionError);
    vm_compute; reflexivity.
Defined.

(** The browser-cache scan of a machine whose profiles directory refuses
    to be listed. *)
Example unlistable_profiles_raise :
  scan_category Scenario.cleaner
    (Machines.with_firefox_profile Machines.an_unlistable_dir)
    "browser_cache"
  = Raise PermissionError.
Proof. vm_compute. reflexivity. Qed.

(* ===================================================================== *)
(** * What a removal touches *)
(* ===================================================================== *)

Section Beneath.

Lemma is_prefix_same xs ys :
  map Str.lower xs = map Str.lower ys -> is_prefix xs ys = true.
Proof.
  revert ys. induction xs as [|x xs IH]; intros [|y ys] E; simpl in *;
    try reflexivity; try discriminate.
  injection E as -> E. rewrite String.eqb_refl. now apply IH.
Qed.

Lemma is_prefix_lower xs xs' ys :
  map Str.lower xs = map Str.lower xs' -> is_prefix xs ys = is_prefix xs' ys.
Proof.
  revert xs' ys. induction xs as [|x xs IH]; intros [|x' xs'] ys E;
    simpl in *; try reflexivity; try discriminate.
  injection E as -> E. destruct ys as [|y ys]; [reflexivity |].
  now rewrite (IH xs' ys E).
Qed.

Lemma is_prefix_trans xs ys zs :
  is_prefix xs ys = true -> is_prefix ys zs = true -> is_prefix xs zs = true.
Proof.
  revert ys zs. induction xs as [|x xs IH]; intros [|y ys] [|z zs];
    simpl; try reflexivity; try discriminate.
  rewrite !andb_true_iff, !String.eqb_eq. intros [-> H1] [-> H2].
  split; [reflexivity | now apply (IH ys)].
Qed.

(** An entry at the path is at or beneath it. *)
Lemma at_path_at_or_below t pe :
  at_path t pe = true -> at_or_below t (fst pe) = true.
Proof.
  unfold at_path, at_or_below. intros H.
  apply path_eqb_normcase in H. unfold normcase in H. injection H as Ha Hn.
  rewrite Ha, String.eqb_refl. simpl. apply is_prefix_same. now symmetry.
Qed.

Lemma at_or_below_same t t' q :
  path_eqb t t' = true -> at_or_below t q = at_or_below t' q.
Proof.
  intros H. apply path_eqb_normcase in H. unfold normcase in H.
  injection H as Ha Hn. unfold at_or_below.
  now rewrite Ha, (is_prefix_lower _ _ _ Hn).
Qed.

Lemma at_or_below_trans t q r :
  at_or_below t q = true -> at_or_below q r = true ->
  at_or_below t r = true.
Proof.
  unfold at_or_below. rewrite !andb_true_iff, !String.eqb_eq.
  intros [-> H1] [-> H2]. split; [reflexivity |].
  now apply (is_prefix_trans _ (names q)).
Qed.

Lemma removable_same w t t' :
  path_eqb t t' = true -> removable w t = removable w t'.
Proof.
  intros H. unfold removable.
  induction (entries w) as [|pe es IH]; simpl; [reflexivity |].
  now rewrite IH, (at_or_below_same t t' _ H).
Qed.

(** What is removable as a whole is removable in each of its parts. *)
Lemma removable_beneath w t q :
  at_or_below t q = true -> removable w t = true -> removable w q = true.
Proof.
  unfold removable. rewrite !forallb_forall. intros Htq H pe Hpe.
  specialize (H pe Hpe).
  destruct (at_or_below q (fst pe)) eqn:E; [| reflexivity].
  now rewrite (at_or_below_trans t q (fst pe) Htq E) in H.
Qed.

Lemma is_prefix_length xs ys :
  is_prefix xs ys = true -> (length xs <= length ys)%nat.
Proof.
  revert ys. induction xs as [|x xs IH]; intros [|y ys]; simpl;
    try discriminate; try lia.
  rewrite andb_true_iff. intros [_ H]. apply IH in H. lia.
Qed.

(** A walk reaches the directory it starts at. *)
Lemma reachable_at_root w t pe :
  at_path t pe = true -> reachable w t (fst pe) = true.
Proof.
  intros Hat. unfold reachable. apply forallb_forall. intros [r e] _.
  cbn [fst snd].
  destruct (at_or_below t r && beneath None r (fst pe)) eqn:E;
    [| reflexivity].
  exfalso. apply andb_true_iff in E. destruct E as [Htr Hb].
  unfold beneath in Hb. apply andb_true_iff in Hb. destruct Hb as [_ Hlt].
  apply Nat.ltb_lt in Hlt.
  unfold at_or_below in Htr. apply andb_true_iff in Htr.
  destruct Htr as [_ Hpre]. apply is_prefix_length in Hpre.
  unfold at_path in Hat. apply path_eqb_normcase in Hat.
  unfold normcase in Hat. injection Hat as _ Hn.
  apply (f_equal (@length string)) in Hn. rewrite !length_map in Hn. lia.
Qed.

(** A walk from a directory that is removable as a whole reaches every
    entry beneath it. *)
Lemma removable_reaches w t pe :
  removable w t = true -> In pe (entries w) ->
  reachable w t (fst pe) = true.
Proof.
  unfold removable, reachable. rewrite !forallb_forall.
  intros Hr Hin [r e] Hre. cbn [fst snd].
  destruct (at_or_below t r && beneath None r (fst pe)) eqn:E;
    [| reflexivity].
  apply andb_true_iff in E. destruct E as [Htr Hb].
  specialize (Hr (r, e) Hre). cbn [fst] in Hr. rewrite Htr in Hr.
  unfold gives_way in Hr. cbn [negb orb fst snd] in Hr.
  apply andb_true_iff in Hr. destruct Hr as [_ Hr].
  apply orb_true_iff in Hr. destruct Hr as [Hr | Hr]; [now rewrite Hr |].
  unfold childless in Hr. rewrite forallb_forall in Hr.
  specialize (Hr pe Hin). now rewrite Hb in Hr.
Qed.

Lemma find_filter_none_iff {A} (f g : A -> bool) l :
  find f (filter g l) = None <->
  (forall x, In x l -> f x = true -> g x = false).
Proof.
  induction l as [|x l IH]; simpl.
  - split; [intros _ y [] | reflexivity].
  - destruct (g x) eqn:Hg; simpl.
    + destruct (f x) eqn:Hf.
      * split; [discriminate |]. intros H.
        specialize (H x (or_introl eq_refl) Hf). congruence.
      * rewrite IH. split.
        -- intros H y [<- | Hy] Hy'; [congruence | now apply H].
        -- intros H y Hy. apply H. now right.
    + rewrite IH. split.
      * intros H y [<- | Hy] Hy'; [exact Hg | now apply H].
      * intros H y Hy. apply H. now right.
Qed.

End Beneath.

Section Spared.

Lemma spares_refl w p : spares w w p.
Proof. intros pe H _. exact H. Qed.

Lemma unlink_spares w p : spares w (snd (unlink w p)) p.
Proof.
  intros pe Hin Hb. unfold unlink.
  destruct (lookup w p) as [e|]; [| exact Hin].
  destruct (kind e); [| exact Hin].
  destruct (can_remove e); [| exact Hin].
  simpl. apply filter_In. split; [exact Hin |].
  destruct (at_path (resolve w p) pe) eqn:E; [| reflexivity].
  apply at_path_at_or_below in E. congruence.
Qed.

Lemma rmtree_spares w p : spares w (rmtree_ignore_errors w p) p.
Proof.
  intros pe Hin Hb. unfold rmtree_ignore_errors.
  destruct (is_kind Dir (lookup w p)); [| exact Hin].
  simpl. apply filter_In. split; [exact Hin |]. now rewrite Hb.
Qed.

Lemma safe_remove_file_spares w p : spares w (snd (safe_remove_file w p)) p.
Proof.
  unfold safe_remove_file. rewrite or_false_snd.
  destruct (path_exists w p) as [[|]|e]; simpl; try apply spares_refl.
  pose proof (unlink_spares w p) as H.
  destruct (unlink w p) as [[u|e] w']; exact H.
Qed.

Lemma safe_remove_dir_spares w p : spares w (snd (safe_remove_dir w p)) p.
Proof.
  unfold safe_remove_dir. rewrite or_false_snd.
  destruct (path_exists w p) as [[|]|e]; simpl; try apply spares_refl.
  pose proof (rmtree_spares w p) as H.
  destruct (path_exists (rmtree_ignore_errors w p) p); exact H.
Qed.

(** A pass of the loop of [clean_files] spares what is not at or beneath
    its path, and everything when the filter rejects the path. *)
Lemma clean_try_spares self w p pe :
  In pe (entries w) ->
  (safe self p -> at_or_below (resolve w p) (fst pe) = false) ->
  In pe (entries (snd (clean_try self w p))).
Proof.
  intros Hin Hb.
  destruct (clean_try_cases self w p)
    as [[_ ->] | [[e [_ ->]] | [[_ [_ ->]] | [[e [_ [_ ->]]] |
        [isf [b [_ [Hsafe [_ ->]]]]]]]]]; simpl; try exact Hin.
  destruct isf; simpl;
    [apply safe_remove_file_spares | apply safe_remove_dir_spares]; auto.
Qed.

Lemma clean_loop_spares self files n w pe :
  In pe (entries w) ->
  (forall p, In p files -> safe self p ->
             at_or_below (resolve w p) (fst pe) = false) ->
  In pe (entries (snd (clean_loop self files (n, w)))).
Proof.
  revert n w. induction files as [|p files IH]; intros n w Hin Hb;
    [exact Hin |].
  cbn [clean_loop]. rewrite clean_one_eq. apply IH.
  - apply clean_try_spares; [exact Hin |]. apply Hb. now left.
  - intros q Hq Hsafe.
    rewrite (shrinks_resolve w _ q (clean_try_shrinks self w p)).
    apply Hb; [now right | exact Hsafe].
Qed.

End Spared.

(** [clean_files] only deletes, and only where it was told to: the
    machine it leaves has the same working directory, holds no entry that
    was not there before, and still holds every entry that is neither at
    nor beneath a listed path that passes the safety filter. *)
Theorem clean_files_deletes_only_listed
  (self : WindowsCleaner) (w : World) (files : list Path) :
  let w' := snd (clean_files self w files) in
  cwd w' = cwd w /\
  (forall pe, In pe (entries w') -> In pe (entries w)) /\
  (forall pe,
      In pe (entries w) ->
      (forall p, In p files -> safe self p ->
                 at_or_below (resolve w p) (fst pe) = false) ->
      In pe (entries w')).
Proof.
  cbv zeta. unfold clean_files.
  destruct (clean_loop_shrinks self files (mkCounters 0 0 0) w)
    as [Hcwd [keep Hkeep]].
  split; [exact Hcwd |]. split.
  - intros pe. rewrite Hkeep. intros H. apply filter_In in H. tauto.
  - intros pe. apply clean_loop_spares.
Qed.

Lemma clean_files_deletes_only_listed_witness :
  In (parse "C:\Users\david\AppData\Local\Temp\setup.exe", Scenario.a_file 100)
     (entries (snd (clean_files Scenario.cleaner Scenario.temp_with_exe
                      [Scenario.temp_file "session.dat";
                       Scenario.temp_file "setup.exe"]))).
Proof.
  apply (clean_files_deletes_only_listed Scenario.cleaner
           Scenario.temp_with_exe).
  - vm_compute. tauto.
  - intros p [<- | [<- | []]] Hsafe.
    + vm_compute. reflexivity.
    + vm_compute in Hsafe. discriminate Hsafe.
Defined.

(* ===================================================================== *)
(** * safe_remove_file and safe_remove_dir, exactly *)
(* ===================================================================== *)



Section RemoveDir.

Variable w : World.
Variable p : Path.

Lemma path_exists_lookup :
  path_exists w p
  = match lookup w p with
    | None => Ok false
    | Some e => if can_probe e then Ok true else Raise PermissionError
    end.
Proof.
  unfold path_exists, probe. destruct (lookup w p) as [e|]; [| reflexivity].
  now destruct (can_probe e).
Qed.

Lemma lookup_find_at e :
  lookup w p = Some e ->
  exists q, In (q, e) (entries w) /\ at_path (resolve w p) (q, e) = true.
Proof.
  unfold lookup. destruct (find _ (entries w)) as [[q e']|] eqn:Hf;
    [| discriminate].
  simpl. intros E. injection E as <-. apply find_some in Hf. eauto.
Qed.

(** After [rmtree], the path is off the disk exactly when it was a
    directory with nothing at or beneath it that refuses removal, or
    refuses to be listed while holding something. *)
Lemma rmtree_gone_iff e :
  lookup w p = Some e ->
  (lookup (rmtree_ignore_errors w p) p = None <->
   kind e = Dir /\ removable w (resolve w p) = true).
Proof.
  intros Hl. destruct (lookup_find_at e Hl) as [q [Hq Hat]].
  unfold rmtree_ignore_errors. rewrite Hl. unfold is_kind.
  destruct (kind e) eqn:Hk.
  - unfold lookup at 1. cbn [log_attempt cwd entries].
    replace (resolve _ p) with (resolve w p) by reflexivity.
    fold (lookup w p). rewrite Hl. split; [discriminate | intros [H _]; discriminate].
  - unfold lookup at 1. cbn [set_entries log_attempt cwd entries].
    replace (resolve _ p) with (resolve w p) by reflexivity.
    destruct (find (at_path (resolve w p)) (filter _ (entries w))) eqn:Hf.
    + split; [discriminate |]. intros [_ Hr]. exfalso.
      apply find_some in Hf. destruct Hf as [Hin Hat'].
      apply filter_In in Hin. destruct Hin as [_ Hkeep].
      apply at_path_at_or_below in Hat' as Hb. rewrite Hb in Hkeep.
      rewrite (reachable_at_root w _ _ Hat') in Hkeep.
      unfold at_path in Hat'.
      rewrite (removable_same w _ _ Hat'), Hr in Hkeep. discriminate.
    + split; [| reflexivity]. intros _. split; [reflexivity |].
      pose proof (proj1 (find_filter_none_iff _ _ _) Hf (q, e) Hq Hat) as Hk'.
      apply negb_false_iff, andb_true_iff in Hk'. destruct Hk' as [_ Hr].
      unfold at_path in Hat. cbn [fst] in *.
      now rewrite <- (removable_same w _ _ Hat).
Qed.

End RemoveDir.

(** [safe_remove_dir] reports success exactly for a directory that the
    system lets it look up and under which nothing refuses removal (nor
    refuses to be listed while holding something); nothing at or beneath
    the path is then left on disk.  It never raises. *)
Theorem safe_remove_dir_succeeds_iff (w : World) (p : Path) :
  (exists b, fst (safe_remove_dir w p) = Ok b) /\
  (fst (safe_remove_dir w p) = Ok true <->
   exists e, lookup w p = Some e /\ can_probe e = true /\
             kind e = Dir /\ removable w (resolve w p) = true) /\
  (fst (safe_remove_dir w p) = Ok true ->
   forall pe, In pe (entries (snd (safe_remove_dir w p))) ->
              at_or_below (resolve w p) (fst pe) = false).
Proof.
  split; [apply safe_remove_dir_returns |].
  assert (Hiff : fst (safe_remove_dir w p) = Ok true <->
                 exists e, lookup w p = Some e /\ can_probe e = true /\
                           kind e = Dir /\ removable w (resolve w p) = true).
  { unfold safe_remove_dir, or_false. rewrite !path_exists_lookup.
    destruct (lookup w p) as [e|] eqn:Hl; simpl.
    - destruct (can_probe e) eqn:Hp; simpl.
      + pose proof (rmtree_gone_iff w p e Hl) as Hg.
        destruct (lookup (rmtree_ignore_errors w p) p) as [e'|] eqn:Hl';
          simpl.
        * assert (Hno : ~ (kind e = Dir /\ removable w (resolve w p) = true))
            by (intros H; apply Hg in H; discriminate).
          destruct (can_probe e'); simpl; split; try discriminate;
            intros [e0 [E [_ H]]]; injection E as <-; tauto.
        * split; [| reflexivity]. intros _. exists e.
          destruct (proj1 Hg eq_refl). auto.
      + split; [discriminate |]. intros [e0 [E [H _]]]. congruence.
    - split; [discriminate |]. intros [e0 [E _]]. discriminate. }
  split; [exact Hiff |].
  intros Hok. apply Hiff in Hok. destruct Hok as [e [Hl [Hp [Hk Hr]]]].
  unfold safe_remove_dir. rewrite or_false_snd, path_exists_lookup, Hl, Hp.
  assert (Hw : entries (rmtree_ignore_errors w p)
               = filter (fun pe => negb (at_or_below (resolve w p) (fst pe) &&
                                         reachable w (resolve w p) (fst pe) &&
                                         removable w (fst pe)))
                        (entries w)).
  { unfold rmtree_ignore_errors, is_kind. now rewrite Hl, Hk. }
  destruct (path_exists (rmtree_ignore_errors w p) p); simpl;
    rewrite Hw; intros pe Hin; apply filter_In in Hin;
    destruct Hin as [Hin Hkeep];
    (destruct (at_or_below (resolve w p) (fst pe)) eqn:Hb; [| reflexivity]);
    now rewrite (removable_reaches w _ _ Hr Hin),
                (removable_beneath w _ _ Hb Hr) in Hkeep.
Qed.

Lemma safe_remove_dir_succeeds_iff_witness :
  fst (safe_remove_dir Scenario.three_temp_files (temp_dir Scenario.cleaner))
  = Ok true.
Proof.
  apply (proj1 (proj2 (safe_remove_dir_succeeds_iff Scenario.three_temp_files
                         (temp_dir Scenario.cleaner)))).
  exists Scenario.a_dir. repeat split; vm_compute; reflexivity.
Defined.

(* ===================================================================== *)
(** * get_file_size, exactly *)
(* ===================================================================== *)

Section Measuring.

Variable w : World.




End Measuring.



(* ===================================================================== *)
(** * The system-core rule of the safety filter *)
(* ===================================================================== *)

Section SystemCore.

Local Open Scope string_scope.

Lemma string_app_assoc (s t u : string) : (s ++ t) ++ u = s ++ t ++ u.
Proof. induction s as [|c s IH]; simpl; [reflexivity | now rewrite IH]. Qed.

Lemma string_app_nil_r (s : string) : s ++ "" = s.
Proof. induction s as [|c s IH]; simpl; [reflexivity | now rewrite IH]. Qed.

Lemma prefix_append (n t : string) : String.prefix n (n ++ t) = true.
Proof.
  induction n as [|c n IH]; simpl.
  - now destruct t.
  - destruct (ascii_dec c c) as [_ | H]; [exact IH | congruence].
Qed.

Lemma contains_append_r (n s t : string) :
  Str.contains n t = true -> Str.contains n (s ++ t) = true.
Proof.
  intros H. induction s as [|c s IH]; [exact H |].
  cbn [String.append Str.contains]. rewrite IH. apply orb_true_r.
Qed.

Lemma contains_middle (n s t : string) :
  Str.contains n (s ++ n ++ t) = true.
Proof.
  apply contains_append_r. destruct (n ++ t) eqn:E;
    cbn [Str.contains]; rewrite <- E, prefix_append; reflexivity.
Qed.

(** Two names that follow each other in a path follow each other, with
    one separator between them, in the text of the path. *)
Lemma join_two sep (before : list string) x y (after : list string) :
  exists s t, Str.join sep (before ++ x :: y :: after)%list
              = s ++ (x ++ sep ++ y) ++ t.
Proof.
  induction before as [|b before [s [t IH]]].
  - exists "". destruct after as [|z after].
    + exists "". cbn [app Str.join String.append].
      now rewrite string_app_nil_r.
    + exists (sep ++ Str.join sep (z :: after)).
      cbn [app String.append]. change (Str.join sep (x :: y :: z :: after))
        with (x ++ sep ++ y ++ sep ++ Str.join sep (z :: after)).
      now rewrite !string_app_assoc.
  - exists (b ++ sep ++ s), t.
    cbn [app]. destruct (before ++ x :: y :: after)%list eqn:E.
    + destruct before; discriminate.
    + change (Str.join sep (b :: s0 :: l))
        with (b ++ sep ++ Str.join sep (s0 :: l)).
      rewrite IH. now rewrite !string_app_assoc.
Qed.

Lemma str_contains_pair a (before : list string) x y (after : list string) :
  Str.contains (x ++ "\" ++ y)
               (str (mkPath a (before ++ x :: y :: after)%list)) = true.
Proof.
  unfold str. cbn [anchor names].
  destruct (join_two "\" before x y after) as [s [t E]].
  assert (H : Str.contains (x ++ "\" ++ y)
                (a ++ Str.join "\" (before ++ x :: y :: after)%list) = true).
  { rewrite E. apply contains_append_r, contains_middle. }
  destruct a; [| exact H].
  destruct (before ++ x :: y :: after)%list eqn:E'; [| exact H].
  destruct before; discriminate.
Qed.

End SystemCore.

(** Whatever the drive and wherever in the path, a path with the name
    [Windows] directly followed by [System32] or by [SysWOW64] is never
    safe to delete. *)
Theorem system_core_is_unsafe
  (self : WindowsCleaner) (a : string) (before : list string)
  (core : string) (after : list string) :
  core = "System32"%string \/ core = "SysWOW64"%string ->
  _is_safe_to_delete self
    (mkPath a (before ++ "Windows"%string :: core :: after)) = false.
Proof.
  intros Hcore. unfold _is_safe_to_delete.
  destruct (under_protected _ _); [reflexivity |].
  destruct (Str.mem _ _); [reflexivity |].
  pose proof (str_contains_pair a before "Windows" core after) as H.
  destruct Hcore as [-> | ->]; cbn [String.append] in H; rewrite H;
    [reflexivity | now rewrite orb_true_r].
Qed.

Lemma system_core_is_unsafe_witness :
  _is_safe_to_delete Scenario.cleaner
    (parse "E:/backup/Windows/SysWOW64/notes.txt") = false.
Proof.
  apply (system_core_is_unsafe Scenario.cleaner "E:\" ["backup"]
           "SysWOW64" ["notes.txt"]).
  right. reflexivity.
Defined.

(* ===================================================================== *)
(** * parse_size *)
(* ===================================================================== *)

Section SizeStrings.

Local Open Scope string_scope.

Lemma lstrip_keeps_end (s : string) (c : ascii) :
  is_space c = false ->
  exists s', lstrip (s ++ String c "") = s' ++ String c "".
Proof.
  intros Hc. induction s as [|a s IH]; cbn [String.append lstrip].
  - rewrite Hc. now exists "".
  - destruct (is_space a); [exact IH |]. now exists (String a s).
Qed.

Lemma rstrip_keeps_end (s : string) (c : ascii) :
  is_space c = false -> rstrip (s ++ String c "") = s ++ String c "".
Proof.
  intros Hc. induction s as [|a s IH]; cbn [String.append rstrip].
  - now rewrite Hc.
  - rewrite IH. now destruct (s ++ String c "") eqn:E; [destruct s |].
Qed.

Lemma strip_keeps_end (s : string) (c : ascii) :
  is_space c = false ->
  exists s', strip (s ++ String c "") = s' ++ String c "".
Proof.
  intros Hc. unfold strip. destruct (lstrip_keeps_end s c Hc) as [s' ->].
  exists s'. now apply rstrip_keeps_end.
Qed.

Lemma substring_prefix (s t : string) :
  String.substring 0 (String.length s) (s ++ t) = s.
Proof. induction s as [|a s IH]; simpl; [now destruct t | now rewrite IH]. Qed.

Lemma substring_suffix (s t : string) :
  String.substring (String.length s) (String.length t) (s ++ t) = t.
Proof.
  induction s as [|a s IH]; simpl; [apply substring_whole | exact IH].
Qed.

Lemma endswith_append (s u : string) : endswith (s ++ u) u = true.
Proof.
  unfold endswith. rewrite length_append.
  replace (String.length s + String.length u - String.length u)%nat
    with (String.length s) by lia.
  rewrite substring_suffix, String.eqb_refl, andb_true_r.
  apply Nat.leb_le. lia.
Qed.

Lemma drop_last_append (s u : string) :
  drop_last (String.length u) (s ++ u) = s.
Proof.
  unfold drop_last. rewrite length_append.
  replace (String.length s + String.length u - String.length u)%nat
    with (String.length s) by lia.
  apply substring_prefix.
Qed.

End SizeStrings.

(** [parse_size] returns [0] for every size written in KB, MB, GB or TB.
    The table of units starts with [B], every such text ends in [B], so
    the first entry is always the one taken; what is left of the text
    then ends in the letter of the unit, which [float] refuses.  The
    property holds for every [float] that, like Python's, accepts no text
    ending in K, M, G or T. *)
Theorem parse_size_loses_larger_units
  (PyFloat : Type) (to_float : string -> option PyFloat)
  (int_of_product : PyFloat -> Z -> Converted)
  (size_str number : string) (letter : ascii) :
  (forall (s : string) (c : ascii),
      In c ["K"; "M"; "G"; "T"]%char ->
      to_float (s ++ String c "")%string = None) ->
  In letter ["K"; "M"; "G"; "T"]%char ->
  upper (strip size_str) = (number ++ String letter "B")%string ->
  parse_size PyFloat to_float int_of_product size_str = Returned 0.
Proof.
  intros Hfloat Hletter Htext. unfold parse_size. rewrite Htext.
  assert (Hsplit : (number ++ String letter "B")%string
                   = ((number ++ String letter "") ++ "B")%string).
  { rewrite string_app_assoc. reflexivity. }
  rewrite Hsplit. unfold units. cbn [parse_units].
  rewrite (endswith_append (number ++ String letter "") "B").
  rewrite (drop_last_append (number ++ String letter "") "B").
  assert (Hsp : is_space letter = false).
  { destruct Hletter as [<- | [<- | [<- | [<- | []]]]]; reflexivity. }
  destruct (strip_keeps_end number letter Hsp) as [s' ->].
  now rewrite (Hfloat s' letter Hletter).
Qed.

Lemma decimal_float_refuses_letters (s : string) (c : ascii) :
  In c ["K"; "M"; "G"; "T"]%char ->
  decimal_float (s ++ String c "")%string = None.
Proof.
  intros Hc. unfold decimal_float.
  assert (H : all_digits (s ++ String c "")%string = false).
  { induction s as [|a s IH]; cbn [String.append all_digits].
    - destruct Hc as [<- | [<- | [<- | [<- | []]]]]; reflexivity.
    - rewrite IH. apply andb_false_r. }
  rewrite H. now destruct (s ++ String c "")%string.
Qed.

Lemma parse_size_loses_larger_units_witness :
  parse_size Z decimal_float exact_product " 2 gb " = Returned 0.
Proof.
  apply (parse_size_loses_larger_units Z decimal_float exact_product
           " 2 gb " "2 " "G"%char).
  - apply decimal_float_refuses_letters.
  - simpl. tauto.
  - reflexivity.
Defined.

Example parse_size_reads_bytes :
  parse_size Z decimal_float exact_product "512 B" = Returned 512.
Proof. reflexivity. Qed.

(* ===================================================================== *)
(** * The analysis and cleaning threads *)
(* ===================================================================== *)

Section Dicts.

Context {V : Type}.

Lemma dict_get_present (key : string) (d : list (string * V)) :
  In key (map fst d) -> exists v, dict_get key d = Some v.
Proof.
  unfold dict_get. induction d as [|[k v] d IH]; simpl; [tauto |].
  intros [-> | H].
  - rewrite String.eqb_refl. simpl. eauto.
  - destruct (String.eqb k key); simpl; eauto.
Qed.

Lemma dict_get_In (key : string) (v : V) (d : list (string * V)) :
  dict_get key d = Some v -> In (key, v) d.
Proof.
  unfold dict_get. induction d as [|[k v'] d IH]; simpl; [discriminate |].
  destruct (String.eqb k key) eqn:E; simpl.
  - apply String.eqb_eq in E. intros H. injection H as <-. subst. now left.
  - intros H. right. now apply IH.
Qed.

Lemma dict_get_first (key : string) (v : V) (d : list (string * V)) :
  ~ In key (map fst d) -> dict_get key ((key, v) :: d) = Some v.
Proof. intros _. unfold dict_get. simpl. now rewrite String.eqb_refl. Qed.

Lemma dict_get_other (key k : string) (v : V) (d : list (string * V)) :
  k <> key -> dict_get key ((k, v) :: d) = dict_get key d.
Proof.
  intros H. unfold dict_get. simpl.
  destruct (String.eqb k key) eqn:E; [| reflexivity].
  apply String.eqb_eq in E. contradiction.
Qed.

(** A key that is not in the dict goes last. *)
Lemma dict_set_new (key : string) (v : V) (d : list (string * V)) :
  ~ In key (map fst d) -> dict_set key v d = d ++ [(key, v)].
Proof.
  induction d as [|[k v'] d IH]; simpl; [reflexivity |].
  intros H. destruct (String.eqb k key) eqn:E.
  - apply String.eqb_eq in E. tauto.
  - rewrite IH by tauto. reflexivity.
Qed.

End Dicts.

Section Analysis.

Variable cleaner : WindowsCleaner.
Variable w : World.

Lemma get_categories_ids : map fst get_categories = category_ids.
Proof. reflexivity. Qed.

Lemma category_known id :
  In id category_ids -> exists info, dict_get id get_categories = Some info.
Proof. rewrite <- get_categories_ids. apply dict_get_present. Qed.

Lemma category_unknown id :
  ~ In id category_ids -> dict_get id get_categories = None.
Proof. rewrite <- get_categories_ids. apply dict_get_absent. Qed.

Lemma sum_lengths_app (d1 d2 : list (string * ScanResult)) :
  confirmation_totals (mkAppState (d1 ++ d2) false false false false false)
  = (fst (confirmation_totals (mkAppState d1 false false false false false))
     + fst (confirmation_totals (mkAppState d2 false false false false false)),
     snd (confirmation_totals (mkAppState d1 false false false false false))
     + snd (confirmation_totals (mkAppState d2 false false false false false))).
Proof.
  unfold confirmation_totals. cbn [scan_results fst snd].
  induction d1 as [|kv d1 IH]; cbn [app map fold_right].
  - reflexivity.
  - injection IH as E1 E2. rewrite E1, E2. f_equal; lia.
Qed.

(** The loop over the selected categories, when each is known and its
    scan returns: the dict gains one item per category, in order, and the
    running totals grow by what the items hold. *)
Lemma scan_categories_complete categories st :
  NoDup categories ->
  (forall id, In id categories -> ~ In id (map fst (results st))) ->
  (forall id, In id categories -> In id category_ids) ->
  (forall id, In id categories -> exists r, scan_category cleaner w id = Ok r) ->
  exists added,
    scan_categories cleaner w categories st
    = (mkScanLocals
         (results st ++ added)
         (total_size st
          + snd (confirmation_totals
                   (mkAppState added false false false false false)))
         (total_files st
          + fst (confirmation_totals
                   (mkAppState added false false false false false))),
       None) /\
    map fst added = categories /\
    holds_scans cleaner w added.
Proof.
  intros Hnd. revert st.
  induction Hnd as [|id categories Hnotin Hnd IH]; intros st Hfresh Hknown Hok.
  - exists []. cbn [scan_categories]. rewrite app_nil_r.
    unfold confirmation_totals. simpl. rewrite !Z.add_0_r.
    split; [now destruct st |]. split; [reflexivity |]. intros ? ? [].
  - cbn [scan_categories].
    destruct (category_known id (Hknown id (or_introl eq_refl))) as [info ->].
    destruct (Hok id (or_introl eq_refl)) as [[files size] Hr]. rewrite Hr.
    rewrite (dict_set_new id (files, size) (results st))
      by (apply Hfresh; now left).
    edestruct (IH (mkScanLocals (results st ++ [(id, (files, size))])
                                (total_size st + size)
                                (total_files st + Z.of_nat (length files))))
      as [added [Hrun [Hkeys Hholds]]].
    + cbn [results]. intros id' Hin. rewrite map_app. cbn [map fst].
      intros H. apply in_app_or in H. destruct H as [H | [<- | []]].
      * apply (Hfresh id'); [now right | exact H].
      * contradiction.
    + intros id' Hin. apply Hknown. now right.
    + intros id' Hin. apply Hok. now right.
    + exists ((id, (files, size)) :: added).
      split; [| split].
      * etransitivity; [exact Hrun |].
        cbn [results total_size total_files].
        rewrite <- app_assoc. cbn [app].
        unfold confirmation_totals. cbn [scan_results map fold_right fst snd].
        f_equal. f_equal; lia.
      * cbn [map fst]. now rewrite Hkeys.
      * intros id' r [E | Hin]; [injection E as <- <-; exact Hr |].
        now apply Hholds.
Qed.

End Analysis.

(** An analysis that completes.  For a selection of distinct known
    categories whose scans all return, [_scan_thread] stores one result
    per selected category, in the order of the selection; each stored
    result is what [scan_category] returns for its key; the totals it
    shows are the sums that [_start_clean] computes again from the stored
    results for its confirmation dialog; and it marks the analysis as
    complete, enabling the cleaning button when at least one file was
    found. *)
Theorem analysis_totals_match_confirmation
  (cleaner : WindowsCleaner) (w : World) (app : AppState)
  (categories : list string) :
  NoDup categories ->
  (forall id, In id categories -> In id category_ids) ->
  (forall id, In id categories ->
              exists r, scan_category cleaner w id = Ok r) ->
  let app' := fst (_scan_thread cleaner w app categories) in
  map fst (scan_results app') = categories /\
  holds_scans cleaner w (scan_results app') /\
  snd (_scan_thread cleaner w app categories)
  = Some (snd (confirmation_totals app'), fst (confirmation_totals app')) /\
  scan_complete app' = true /\
  is_scanning app' = false /\
  rescan_btn_enabled app' = true /\
  clean_btn_enabled app'
  = ((0 <? fst (confirmation_totals app')) || clean_btn_enabled app)%bool.
Proof.
  intros Hnd Hknown Hok. cbv zeta. unfold _scan_thread.
  destruct (scan_categories_complete cleaner w categories
              (mkScanLocals [] 0 0) Hnd) as [added [Hrun [Hkeys Hholds]]];
    try assumption.
  { intros id _ []. }
  rewrite Hrun. cbn [fst snd results total_size total_files scan_results
                     scan_complete is_scanning rescan_btn_enabled
                     clean_btn_enabled List.app].
  unfold confirmation_totals. cbn [scan_results fst snd List.app].
  repeat split; assumption.
Qed.

Lemma analysis_totals_match_confirmation_witness :
  snd (_scan_thread Scenario.cleaner Scenario.temp_with_exe
         (mkAppState [] false true false false false)
         ["temp_user"; "prefetch"]%string)
  = Some (snd (confirmation_totals
                 (fst (_scan_thread Scenario.cleaner Scenario.temp_with_exe
                         (mkAppState [] false true false false false)
                         ["temp_user"; "prefetch"]%string))),
          fst (confirmation_totals
                 (fst (_scan_thread Scenario.cleaner Scenario.temp_with_exe
                         (mkAppState [] false true false false false)
                         ["temp_user"; "prefetch"]%string)))).
Proof.
  apply (analysis_totals_match_confirmation Scenario.cleaner
           Scenario.temp_with_exe (mkAppState [] false true false false false)
           ["temp_user"; "prefetch"]%string).
  - repeat constructor; simpl; intuition discriminate.
  - intros id [<- | [<- | []]]; vm_compute; tauto.
  - intros id [<- | [<- | []]]; eexists; vm_compute; reflexivity.
Defined.

Section AnalysisFails.

Variable cleaner : WindowsCleaner.
Variable w : World.

Lemma scan_categories_app categories1 categories2 st :
  scan_categories cleaner w (categories1 ++ categories2) st
  = match scan_categories cleaner w categories1 st with
    | (st', None) => scan_categories cleaner w categories2 st'
    | (st', Some c) => (st', Some c)
    end.
Proof.
  revert st. induction categories1 as [|id categories1 IH]; intros st;
    [reflexivity |].
  cbn [List.app scan_categories].
  destruct (dict_get id get_categories); [| reflexivity].
  destruct (scan_category cleaner w id) as [[files size]|e];
    [apply IH | reflexivity].
Qed.

Lemma scan_categories_fails bad after st :
  ~ In bad category_ids \/ (exists e, scan_category cleaner w bad = Raise e) ->
  exists c, scan_categories cleaner w (bad :: after) st = (st, Some c).
Proof.
  intros [Hunknown | [e He]]; cbn [scan_categories].
  - rewrite (category_unknown bad Hunknown). eauto.
  - destruct (dict_get bad get_categories); [rewrite He |]; eauto.
Qed.

End AnalysisFails.

(** An analysis that fails.  When a selected category is unknown or its
    scan raises, [_scan_thread] shows no totals and stops there: the
    results stored are those of the categories before it, the categories
    after it are not scanned, and the analysis is not marked complete;
    the scanning flag is lowered all the same. *)
Theorem analysis_stops_at_first_failure
  (cleaner : WindowsCleaner) (w : World) (app : AppState)
  (before : list string) (bad : string) (after : list string) :
  NoDup before ->
  (forall id, In id before -> In id category_ids) ->
  (forall id, In id before -> exists r, scan_category cleaner w id = Ok r) ->
  (~ In bad category_ids \/ exists e, scan_category cleaner w bad = Raise e) ->
  let app' := fst (_scan_thread cleaner w app (before ++ bad :: after)) in
  snd (_scan_thread cleaner w app (before ++ bad :: after)) = None /\
  map fst (scan_results app') = before /\
  holds_scans cleaner w (scan_results app') /\
  scan_complete app' = scan_complete app /\
  clean_btn_enabled app' = clean_btn_enabled app /\
  is_scanning app' = false /\
  rescan_btn_enabled app' = true.
Proof.
  intros Hnd Hknown Hok Hbad. cbv zeta. unfold _scan_thread.
  rewrite scan_categories_app.
  destruct (scan_categories_complete cleaner w before
              (mkScanLocals [] 0 0) Hnd) as [added [Hrun [Hkeys Hholds]]];
    try assumption.
  { intros id _ []. }
  destruct (scan_categories cleaner w before (mkScanLocals [] 0 0))
    as [st' [c|]] eqn:Hst; [discriminate Hrun |].
  destruct (scan_categories_fails cleaner w bad after st' Hbad) as [c ->].
  injection Hrun as ->.
  cbn [fst snd results scan_results scan_complete clean_btn_enabled
       is_scanning rescan_btn_enabled List.app].
  repeat split; assumption.
Qed.

Lemma analysis_stops_at_first_failure_witness :
  snd (_scan_thread Scenario.cleaner Scenario.temp_with_exe
         (mkAppState [] false true false false false)
         (["temp_user"] ++ "registry" :: ["prefetch"]))
  = None.
Proof.
  apply (analysis_stops_at_first_failure Scenario.cleaner
           Scenario.temp_with_exe (mkAppState [] false true false false false)
           ["temp_user"]%string "registry"%string ["prefetch"]%string).
  - repeat constructor; simpl; tauto.
  - intros id [<- | []]; vm_compute; tauto.
  - intros id [<- | []]; eexists; vm_compute; reflexivity.
  - left. vm_compute. intuition discriminate.
Defined.

(* ===================================================================== *)
(** * The cleaning thread *)
(* ===================================================================== *)

Section Cleaning.

Variable cleaner : WindowsCleaner.
Variable scanned : list (string * ScanResult).

Lemma subscript_unique (d : list (string * ScanResult)) kv :
  NoDup (map fst d) -> In kv d -> subscript d (fst kv) = Some (snd kv).
Proof.
  unfold subscript. induction d as [|[k v] d IH]; [intros _ [] |].
  cbn [map fst]. intros Hnd [<- | Hin].
  - unfold dict_get. simpl. now rewrite String.eqb_refl.
  - inversion Hnd as [|? ? Hnotin Hnd']; subst.
    rewrite dict_get_other; [now apply IH |].
    intros ->. apply Hnotin. apply in_map_iff. exists kv. auto.
Qed.

(** Over the keys of a dict, the files listed add up to the first sum
    of the confirmation dialog. *)
Lemma listed_under_total app :
  NoDup (map fst (scan_results app)) ->
  fold_right Z.add 0
    (map (listed_under (scan_results app)) (map fst (scan_results app)))
  = fst (confirmation_totals app).
Proof.
  intros Hnd. unfold confirmation_totals. cbn [fst]. rewrite map_map.
  f_equal. apply map_ext_in. intros kv Hin. unfold listed_under.
  rewrite (subscript_unique _ kv Hnd Hin). now destruct kv as [k [fs sz]].
Qed.

Lemma clean_files_counts files w :
  let n := fst (clean_files cleaner w files) in
  0 <= removed n /\ 0 <= errors n /\ 0 <= size_freed n /\
  removed n + errors n <= Z.of_nat (length files).
Proof.
  cbv zeta. unfold clean_files.
  pose proof (clean_loop_counts cleaner files (mkCounters 0 0 0) w) as H.
  pose proof (clean_loop_size_freed cleaner files (mkCounters 0 0 0) w) as Hs.
  cbv zeta in H. simpl in H, Hs. lia.
Qed.

(** The loop over the categories, when each key is known and stored:
    nothing is caught, the totals only grow, by at most one per listed
    file, and the machine only loses entries. *)
Lemma clean_categories_complete categories st :
  (forall id, In id categories -> In id category_ids) ->
  (forall id, In id categories -> In id (map fst scanned)) ->
  exists totals w',
    clean_categories cleaner scanned categories st = ((totals, w'), None) /\
    removed (fst st) <= removed totals /\
    errors (fst st) <= errors totals /\
    size_freed (fst st) <= size_freed totals /\
    removed totals + errors totals
      <= removed (fst st) + errors (fst st)
         + fold_right Z.add 0 (map (listed_under scanned) categories) /\
    shrinks (snd st) w'.
Proof.
  revert st. induction categories as [|id categories IH];
    intros [n w] Hknown Hstored.
  - exists n, w. cbn [clean_categories map fold_right fst snd].
    split; [reflexivity |]. split; [lia |]. split; [lia |]. split; [lia |].
    split; [lia | apply shrinks_refl].
  - cbn [clean_categories]. unfold subscript at 1.
    destruct (category_known id (Hknown id (or_introl eq_refl))) as [info ->].
    destruct (dict_get_present id scanned (Hstored id (or_introl eq_refl)))
      as [[files size] Hsub].
    cbn [map fold_right]. unfold listed_under at 1.
    unfold subscript. rewrite Hsub.
    assert (Hk : forall id', In id' categories -> In id' category_ids)
      by (intros; apply Hknown; now right).
    assert (Hs : forall id', In id' categories -> In id' (map fst scanned))
      by (intros; apply Hstored; now right).
    destruct files as [|file files].
    + destruct (IH (n, w) Hk Hs)
        as [totals [w' [Hrun [H1 [H2 [H3 [H4 H5]]]]]]].
      exists totals, w'. cbn [length] in *. cbn [fst snd] in *.
      split; [assumption |]. split; [lia |]. split; [lia |]. split; [lia |].
      split; [lia |]. assumption.
    + cbn [snd fst].
      pose proof (clean_files_counts (file :: files) w) as Hc.
      pose proof (clean_loop_shrinks cleaner (file :: files)
                    (mkCounters 0 0 0) w) as Hsh.
      fold (clean_files cleaner w (file :: files)) in Hsh.
      cbv zeta in Hc.
      destruct (clean_files cleaner w (file :: files)) as [m w1].
      cbn [fst snd] in *.
      destruct (IH (mkCounters (removed n + removed m)
                               (size_freed n + size_freed m)
                               (errors n + errors m), w1) Hk Hs)
        as [totals [w' [Hrun [H1 [H2 [H3 [H4 H5]]]]]]].
      exists totals, w'. cbn [fst snd removed errors size_freed] in *.
      split; [assumption |]. split; [lia |]. split; [lia |]. split; [lia |].
      split; [lia |].
      eapply shrinks_trans; eassumption.
Qed.

End Cleaning.

(** A cleaning that completes.  When the stored results are those of
    known categories, [_clean_thread] is never stopped by an exception:
    it reports totals, none of them negative, in which the files removed
    and the errors together do not exceed the number of files announced
    in the confirmation dialog; it only deletes from the machine; and it
    empties the stored results and lowers the cleaning flag. *)
Theorem cleaning_reports_within_confirmation
  (cleaner : WindowsCleaner) (w : World) (app : AppState) :
  NoDup (map fst (scan_results app)) ->
  (forall id, In id (map fst (scan_results app)) -> In id category_ids) ->
  let run := _clean_thread cleaner w app in
  exists totals,
    snd run = Some totals /\
    0 <= removed totals /\ 0 <= errors totals /\ 0 <= size_freed totals /\
    removed totals + errors totals <= fst (confirmation_totals app) /\
    shrinks w (snd (fst run)) /\
    scan_results (fst (fst run)) = [] /\
    scan_complete (fst (fst run)) = false /\
    is_cleaning (fst (fst run)) = false /\
    rescan_btn_enabled (fst (fst run)) = true.
Proof.
  intros Hnd Hknown. cbv zeta. unfold _clean_thread.
  destruct (clean_categories_complete cleaner (scan_results app)
              (map fst (scan_results app)) (mkCounters 0 0 0, w) Hknown)
    as [totals [w' [Hrun [H1 [H2 [H3 [H4 H5]]]]]]]; [auto |].
  rewrite Hrun. rewrite (listed_under_total app Hnd) in H4.
  cbn [fst snd removed errors size_freed] in *.
  exists totals. split; [reflexivity |].
  split; [lia |]. split; [lia |]. split; [lia |]. split; [lia |].
  split; [assumption |]. repeat split.
Qed.

Lemma cleaning_reports_within_confirmation_witness :
  exists totals,
    snd (_clean_thread Scenario.cleaner Scenario.two_left
           (mkAppState [("old_files"%string, (Scenario.three_listed, 60))]
                       true false true false false))
    = Some totals /\
    removed totals + errors totals <= 3.
Proof.
  destruct (cleaning_reports_within_confirmation Scenario.cleaner
              Scenario.two_left
              (mkAppState [("old_files"%string, (Scenario.three_listed, 60))]
                          true false true false false))
    as [totals [Hrun [_ [_ [_ [Hbound _]]]]]].
  - repeat constructor. simpl. tauto.
  - intros id [<- | []]. vm_compute. tauto.
  - exists totals. split; [exact Hrun | exact Hbound].
Defined.

(* ===================================================================== *)
(** * Scanning again after a cleaning *)
(* ===================================================================== *)

Section OnDisk.

Variable self : WindowsCleaner.
Variable w : World.

Lemma is_prefix_firstn xs ys :
  is_prefix xs ys = true ->
  map Str.lower (firstn (length xs) ys) = map Str.lower xs.
Proof.
  revert ys. induction xs as [|x xs IH]; intros [|y ys]; simpl;
    try reflexivity; try discriminate.
  rewrite andb_true_iff, String.eqb_eq. intros [E H].
  now rewrite (IH ys H), E.
Qed.

(** Looking up the path under which a listing reports an entry finds an
    entry at the path of that entry. *)
Lemma lookup_relocate d q e :
  In (q, e) (entries w) ->
  at_or_below (resolve w d) q = true ->
  lookup w (relocate w d q) <> None.
Proof.
  intros Hin Hb. unfold lookup.
  destruct (find (at_path (resolve w (relocate w d q))) (entries w))
    as [pe|] eqn:Hf; [discriminate |].
  exfalso. apply (find_none _ _ Hf) in Hin. revert Hin.
  unfold at_path. cbn [fst].
  assert (E : path_eqb q (resolve w (relocate w d q)) = true);
    [| now rewrite E].
  apply path_eqb_normcase.
  unfold at_or_below in Hb. apply andb_true_iff in Hb.
  destruct Hb as [Ha Hp]. apply String.eqb_eq in Ha.
  apply is_prefix_firstn in Hp.
  assert (Hres : resolve w (relocate w d q)
                 = mkPath (anchor (resolve w d))
                          (names (resolve w d)
                           ++ skipn (length (names (resolve w d))) (names q))).
  { unfold relocate.
    set (n := length (names (resolve w d))).
    unfold resolve. cbn [anchor names].
    destruct (String.eqb (anchor d) ""); cbn [anchor names];
      [now rewrite app_assoc | reflexivity]. }
  rewrite Hres. unfold normcase. cbn [anchor names].
  rewrite map_app, <- Hp, <- map_app, firstn_skipn. now rewrite Ha.
Qed.

Lemma select_present depth d pattern p :
  In p (select w depth d pattern) -> present w p.
Proof.
  unfold select. intros H. apply in_map_iff in H.
  destruct H as [[q e] [<- H]]. apply filter_In in H.
  destruct H as [Hin H]. apply andb_true_iff in H. destruct H as [H _].
  apply andb_true_iff in H. destruct H as [H _].
  unfold beneath in H. apply andb_true_iff in H. destruct H as [H _].
  now apply (lookup_relocate d q e).
Qed.

Lemma is_file_present p : is_file w p = Ok true -> present w p.
Proof.
  unfold is_file, probe, present. destruct (lookup w p); [discriminate |].
  simpl. discriminate.
Qed.

Lemma _scan_directory_present d patterns r :
  _scan_directory self w d patterns = Ok r -> Forall (present w) (fst r).
Proof.
  unfold _scan_directory.
  destruct (path_exists w d) as [[|]|e]; simpl; try discriminate;
    intros E; injection E as <-; [| constructor].
  unfold scan_directory_try. destruct patterns as [|pattern patterns].
  - destruct (rglob w d "*") as [paths|e]; [| constructor].
    eapply Forall_impl; [| apply scan_files_accepted].
    intros p Hp. simpl in Hp. destruct Hp as [[] | [_ Ha]].
    apply accepted_true in Ha. now apply is_file_present.
  - eapply Forall_impl; [| apply scan_patterns_accepted].
    intros p Hp. simpl in Hp. destruct Hp as [[] | [pat [_ [_ Ha]]]].
    apply accepted_true in Ha. now apply is_file_present.
Qed.

Lemma scan_each_present locations patterns acc r :
  Forall (present w) (fst acc) ->
  scan_each self w locations patterns acc = Ok r ->
  Forall (present w) (fst r).
Proof.
  revert acc. induction locations as [|d locations IH]; intros acc Hacc;
    simpl.
  - intros E. injection E as <-. exact Hacc.
  - destruct (_scan_directory self w d patterns) as [fs|e] eqn:Hd; simpl;
      [| discriminate].
    apply IH. cbn [fst]. apply Forall_app. split; [exact Hacc |].
    now apply (_scan_directory_present d patterns).
Qed.

Lemma scan_profiles_present profiles acc r :
  Forall (present w) (fst acc) ->
  scan_profiles self w profiles acc = Ok r ->
  Forall (present w) (fst r).
Proof.
  revert acc. induction profiles as [|p profiles IH]; intros acc Hacc;
    simpl.
  - intros E. injection E as <-. exact Hacc.
  - destruct (is_dir w p) as [[|]|e]; simpl; try discriminate;
      [| now apply IH].
    destruct (_scan_directory self w (p </> "cache2") []) as [fs|e] eqn:Hd;
      simpl; [| discriminate].
    apply IH. cbn [fst]. apply Forall_app. split; [exact Hacc |].
    now apply (_scan_directory_present (p </> "cache2") []).
Qed.

Lemma scan_thumbs_present paths acc r :
  Forall (present w) paths -> Forall (present w) (fst acc) ->
  scan_thumbs self w paths acc = Ok r ->
  Forall (present w) (fst r).
Proof.
  intros Hpaths. revert acc.
  induction Hpaths as [|p paths Hp _ IH]; intros acc Hacc; simpl.
  - intros E. injection E as <-. exact Hacc.
  - destruct (_is_safe_to_delete self p); [| now apply IH].
    rewrite add_file_eq. simpl. apply IH. cbn [fst].
    apply Forall_app. split; [exact Hacc | now constructor].
Qed.

(** Every path a scan lists is on disk when it is listed. *)
Lemma scan_category_present category r :
  scan_category self w category = Ok r -> Forall (present w) (fst r).
Proof.
  unfold scan_category.
  destruct (dict_get category scan_methods) as [method|] eqn:Hm;
    [| intros E; injection E as <-; constructor].
  unfold dict_get, scan_methods in Hm. simpl in Hm.
  repeat match type of Hm with
         | context [if ?b then _ else _] => destruct b
         end;
    simpl in Hm; try discriminate; injection Hm as <-.
  - apply _scan_directory_present.
  - apply _scan_directory_present.
  - apply _scan_directory_present.
  - unfold _scan_browser_cache.
    match goal with
    | |- bind (scan_each self w ?ds ?ps ?a) _ = _ -> _ =>
        destruct (scan_each self w ds ps a) as [acc|e] eqn:Hacc; simpl;
          [apply scan_each_present in Hacc; [| constructor] | discriminate]
    end.
    destruct (path_exists w _) as [[|]|e]; simpl; try discriminate.
    + destruct (iterdir w _) as [profiles|e]; simpl; [| discriminate].
      now apply scan_profiles_present.
    + intros E. injection E as <-. exact Hacc.
  - unfold _scan_windows_cache.
    destruct (glob w _ _) as [paths|e] eqn:Hg; simpl; [| discriminate].
    assert (Hpaths : Forall (present w) paths).
    { unfold glob in Hg. simpl in Hg.
      destruct (is_dir w _) as [[|]|e]; simpl in Hg; try discriminate;
        injection Hg as <-; [| constructor].
      apply Forall_forall. intros p. apply select_present. }
    destruct (scan_thumbs self w paths ([], 0)) as [acc|e] eqn:Hacc; simpl;
      [| discriminate].
    apply (scan_thumbs_present paths ([], 0) acc Hpaths) in Hacc;
      [| constructor].
    destruct (path_exists w _) as [ex|e] eqn:Hex; simpl; [| discriminate].
    destruct (ex && _is_safe_to_delete self _) eqn:Hc.
    + apply andb_true_iff in Hc. destruct Hc as [-> _].
      rewrite add_file_eq. intros E. injection E as <-. cbn [fst].
      apply Forall_app. split; [exact Hacc |]. constructor; [| constructor].
      now apply (path_exists_true w _ Hex).
    + intros E. injection E as <-. exact Hacc.
  - apply _scan_directory_present.
  - unfold _scan_log_files. intros H.
    apply (scan_each_present _ _ ([], 0) r) in H; [exact H | constructor].
  - unfold _scan_old_files. intros H.
    apply (scan_each_present _ _ ([], 0) r) in H; [exact H | constructor].
Qed.

End OnDisk.

(** After a cleaning that reported no error, a new scan of any category
    lists none of the cleaned paths: they are off the disk, and a scan
    lists only what is on disk. *)
Theorem rescan_lists_nothing_cleaned
  (self : WindowsCleaner) (w : World) (files : list Path)
  (category : string) (found : list Path) (total_size : Z) :
  errors (fst (clean_files self w files)) = 0 ->
  scan_category self (snd (clean_files self w files)) category
  = Ok (found, total_size) ->
  forall p, In p files -> ~ In p found.
Proof.
  intros Herr Hscan p Hp Hfound.
  apply scan_category_present in Hscan. cbn [fst] in Hscan.
  rewrite Forall_forall in Hscan. apply (Hscan p Hfound).
  unfold clean_files in *.
  pose proof (clean_loop_no_error self files (mkCounters 0 0 0) w Herr) as H.
  rewrite Forall_forall in H. now apply H.
Qed.

Lemma rescan_lists_nothing_cleaned_witness :
  ~ In (Scenario.temp_file "a.tmp")
       [Scenario.temp_file "b.tmp"; Scenario.temp_file "c.tmp"].
Proof.
  apply (rescan_lists_nothing_cleaned Scenario.cleaner
           Scenario.three_temp_files [Scenario.temp_file "a.tmp"]
           "temp_user" _ 50).
  - vm_compute. reflexivity.
  - vm_compute. reflexivity.
  - now left.
Defined.

(* ===================================================================== *)
(** * Printing a size *)
(* ===================================================================== *)

Section Printing.

Import QArith Qround.
Import SizeFormat.
Local Open Scope string_scope.
Local Open Scope Z_scope.
Local Open Scope list_scope.

Lemma after_turns_fraction (n : Z) (k : nat) :
  Qnum (after_turns n k) = n
  /\ Z.pos (Qden (after_turns n k)) = 1024 ^ Z.of_nat k.
Proof.
  induction k as [| k [IHn IHd]].
  - split; reflexivity.
  - unfold after_turns in *. rewrite Nat.iter_succ.
    set (q := Nat.iter k _ _) in *.
    destruct q as [a b]. cbn [Qnum Qden] in *.
    unfold Qdiv, Qmult, Qinv. cbn [Qnum Qden inject_Z].
    split.
    + lia.
    + rewrite Nat2Z.inj_succ, Z.pow_succ_r by lia.
      rewrite Pos2Z.inj_mul, IHd. cbn [Pos.mul]. lia.
Qed.

Lemma after_turns_value (n : Z) (k : nat) :
  (after_turns n k == n # Z.to_pos (1024 ^ Z.of_nat k))%Q.
Proof.
  destruct (after_turns_fraction n k) as [Hn Hd].
  unfold Qeq. cbn [Qnum Qden]. rewrite Hn, Hd.
  rewrite Z2Pos.id; [reflexivity | lia].
Qed.

Lemma another_turn (n : Z) (k : nat) :
  Qle_bool (inject_Z 1024) (after_turns n k)
  = (1024 ^ Z.of_nat (S k) <=? n).
Proof.
  destruct (after_turns_fraction n k) as [Hn Hd].
  unfold Qle_bool. cbn [Qnum Qden inject_Z]. rewrite Hn, Hd.
  rewrite Nat2Z.inj_succ, Z.pow_succ_r by lia.
  f_equal; lia.
Qed.

Lemma scale_stops (n : Z) (k remaining j : nat) :
  (j <= k)%nat -> (k <= j + remaining)%nat ->
  ((1 <= k)%nat -> 1024 ^ Z.of_nat k <= n) ->
  ((k < j + remaining)%nat -> n < 1024 ^ Z.of_nat (S k)) ->
  scale (after_turns n j) j remaining = (after_turns n k, k).
Proof.
  revert j.
  induction remaining as [| r IH]; intros j Hjk Hk Hlow Hhigh.
  - assert (j = k) by lia. subst j. reflexivity.
  - cbn [scale]. rewrite another_turn.
    destruct (Nat.eq_dec j k) as [-> | Hne].
    + assert (E : (1024 ^ Z.of_nat (S k) <=? n) = false)
        by (apply Z.leb_gt, Hhigh; lia).
      now rewrite E.
    + assert (E : (1024 ^ Z.of_nat (S j) <=? n) = true).
      { apply Z.leb_le.
        transitivity (1024 ^ Z.of_nat k); [| apply Hlow; lia].
        apply Z.pow_le_mono_r; lia. }
      rewrite E.
      change (after_turns n j / inject_Z 1024)%Q with (after_turns n (S j)).
      apply IH; lia.
Qed.

Lemma format_size_in_bytes (n : Z) :
  0 <= n < 1024 -> format_size n = (str_int n ++ " B")%string.
Proof.
  intros [Hlow Hhigh]. unfold format_size.
  assert (Hneg : (n <? 0) = false) by (apply Z.ltb_ge; lia).
  rewrite Hneg.
  change (length units - 1)%nat with 4%nat.
  change (inject_Z n) with (after_turns n 0).
  rewrite (scale_stops n 0 4 0) by (cbn; lia).
  cbn [Nat.eqb nth units after_turns Nat.iter nat_rect].
  unfold int_of.
  assert (E : Qle_bool (inject_Z 0) (inject_Z n) = true).
  { apply Qle_bool_iff. unfold Qle. cbn [Qnum Qden inject_Z]. lia. }
  rewrite E, Qfloor_Z. reflexivity.
Qed.

Lemma format_size_in_unit (n : Z) (k : nat) :
  (1 <= k <= 4)%nat ->
  1024 ^ Z.of_nat k <= n ->
  ((k < 4)%nat -> n < 1024 ^ Z.of_nat (S k)) ->
  format_size n
  = (format_2f (after_turns n k) ++ " " ++ nth k units "")%string.
Proof.
  intros Hk Hlow Hhigh.
  assert (Hpow : 0 < 1024 ^ Z.of_nat k) by (apply Z.pow_pos_nonneg; lia).
  unfold format_size.
  assert (E : (n <? 0) = false) by (apply Z.ltb_ge; lia).
  rewrite E.
  change (length units - 1)%nat with 4%nat.
  change (inject_Z n) with (after_turns n 0).
  rewrite (scale_stops n k 4 0) by (cbn [Nat.add]; try lia; auto).
  destruct k as [| k]; [lia |]. reflexivity.
Qed.

Lemma unit_reached (n : Z) :
  1024 <= n ->
  exists k, (1 <= k <= 4)%nat /\ 1024 ^ Z.of_nat k <= n
            /\ ((k < 4)%nat -> n < 1024 ^ Z.of_nat (S k)).
Proof.
  intros Hn.
  destruct (Z_lt_le_dec n (1024 ^ 2)) as [H2 | H2];
    [exists 1%nat; cbn; lia |].
  destruct (Z_lt_le_dec n (1024 ^ 3)) as [H3 | H3];
    [exists 2%nat; cbn; lia |].
  destruct (Z_lt_le_dec n (1024 ^ 4)) as [H4 | H4];
    [exists 3%nat; cbn; lia |].
  exists 4%nat; cbn; lia.
Qed.

Lemma larger_unit (k : nat) :
  (1 <= k <= 4)%nat ->
  exists letter, In letter ["K"; "M"; "G"; "T"]%char
                 /\ nth k units "" = String letter "B".
Proof.
  intros Hk.
  destruct k as [| [| [| [| [| k]]]]]; try lia; cbn [nth units].
  - exists "K"%char. simpl. tauto.
  - exists "M"%char. simpl. tauto.
  - exists "G"%char. simpl. tauto.
  - exists "T"%char. simpl. tauto.
Qed.

Lemma lstrip_keeps_tail (s : string) (c : ascii) (t : string) :
  is_space c = false ->
  exists s', lstrip (s ++ String c t) = (s' ++ String c t)%string.
Proof.
  intros Hc. induction s as [|a s IH]; cbn [String.append lstrip].
  - rewrite Hc. now exists ""%string.
  - destruct (is_space a); [exact IH |]. now exists (String a s).
Qed.

Lemma strip_keeps_unit (s : string) (a b : ascii) :
  is_space a = false -> is_space b = false ->
  exists s', strip (s ++ String a (String b ""))
             = (s' ++ String a (String b ""))%string.
Proof.
  intros Ha Hb. unfold strip.
  destruct (lstrip_keeps_tail s a (String b "") Ha) as [s' ->].
  exists s'.
  assert (E : (s' ++ String a (String b ""))%string
              = ((s' ++ String a "") ++ String b "")%string)
    by (rewrite string_app_assoc; reflexivity).
  rewrite E. now apply rstrip_keeps_end.
Qed.

Lemma upper_append (s t : string) :
  upper (s ++ t) = (upper s ++ upper t)%string.
Proof.
  induction s as [|a s IH]; cbn [String.append upper];
    [reflexivity | now rewrite IH].
Qed.

(** Stripping and upper-casing leave the numerals below 1024 as they
    are.  There are 1024 of them, and each is looked at. *)
Lemma numerals_survive (n : Z) :
  0 <= n < 1024 ->
  upper (strip (str_int n ++ " B")) = (str_int n ++ " B")%string
  /\ strip (str_int n ++ " ") = str_int n.
Proof.
  intros Hn.
  assert (Hall : forallb numeral_survives (map Z.of_nat (seq 0 1024)) = true)
    by (vm_compute; reflexivity).
  assert (Hin : In n (map Z.of_nat (seq 0 1024))).
  { apply in_map_iff. exists (Z.to_nat n). split; [lia |].
    apply in_seq. lia. }
  pose proof (proj1 (forallb_forall _ _) Hall n Hin) as H.
  unfold numeral_survives in H. apply andb_true_iff in H.
  destruct H as [H1 H2].
  split; now apply String.eqb_eq.
Qed.

(** A size below 1024 is printed as a whole number of bytes, without
    decimals; a negative size is printed as no bytes at all. *)
Theorem format_size_counts_bytes (size_bytes : Z) :
  size_bytes < 1024 ->
  format_size size_bytes = (str_int (Z.max 0 size_bytes) ++ " B")%string.
Proof.
  intros Hn. destruct (Z_lt_le_dec size_bytes 0) as [Hneg | Hpos].
  - rewrite Z.max_l by lia. unfold format_size.
    assert (E : (size_bytes <? 0) = true) by (apply Z.ltb_lt; lia).
    now rewrite E.
  - rewrite Z.max_r by lia. apply format_size_in_bytes. lia.
Qed.

Lemma format_size_counts_bytes_witness :
  format_size 1023 = "1023 B"%string.
Proof.
  apply (format_size_counts_bytes 1023). lia.
Defined.

(** From 1024 bytes on, a size is printed with two decimals in the
    largest unit it reaches, terabytes at most: a size of at least
    [1024^k] bytes, and below [1024^(k+1)] unless [k] is 4, is divided
    [k] times by 1024 and printed in unit [k].  The number that is
    printed is [size_bytes / 1024^k]; it is at least 1, and below 1024
    in every unit but the last. *)
Theorem format_size_picks_unit (size_bytes : Z) (k : nat) :
  (1 <= k <= 4)%nat ->
  1024 ^ Z.of_nat k <= size_bytes <= 2 ^ 53 ->
  ((k < 4)%nat -> size_bytes < 1024 ^ Z.of_nat (S k)) ->
  format_size size_bytes
  = (format_2f (after_turns size_bytes k) ++ " " ++ nth k units "")%string
  /\ (after_turns size_bytes k
      == size_bytes # Z.to_pos (1024 ^ Z.of_nat k))%Q
  /\ (1 <= after_turns size_bytes k)%Q
  /\ ((k < 4)%nat -> (after_turns size_bytes k < inject_Z 1024)%Q).
Proof.
  intros Hk [Hlow Hfloat] Hhigh.
  assert (Hpow : 0 < 1024 ^ Z.of_nat k) by (apply Z.pow_pos_nonneg; lia).
  destruct (after_turns_fraction size_bytes k) as [Hn Hd].
  split; [| split; [| split]].
  - now apply format_size_in_unit.
  - apply after_turns_value.
  - unfold Qle. cbn [Qnum Qden]. rewrite Hn, Hd. lia.
  - intros Hlt. specialize (Hhigh Hlt).
    rewrite Nat2Z.inj_succ, Z.pow_succ_r in Hhigh by lia.
    unfold Qlt. cbn [Qnum Qden inject_Z]. rewrite Hn, Hd. lia.
Qed.

Lemma format_size_picks_unit_witness :
  format_size 1536 = "1.50 KB"%string.
Proof.
  apply (proj1 (format_size_picks_unit 1536 1 ltac:(lia) ltac:(cbn; lia)
                  ltac:(cbn; lia))).
Defined.

(** The sizes printed by the module's self test, and a size just below a
    mebibyte, which rounds up to 1024.00 in the smaller unit. *)
Example format_size_self_test :
  map format_size
      [0; 1023; 1024; 1536; 1048576; 1073741824; 1099511627776; 1048575]
  = ["0 B"; "1023 B"; "1.00 KB"; "1.50 KB"; "1.00 MB"; "1.00 GB";
     "1.00 TB"; "1024.00 KB"]%string.
Proof. vm_compute. reflexivity. Qed.

(** [parse_size] reads back what [format_size] prints for a size below
    1024: the text is the numeral, a space and [B], and what is left
    once the unit is cut off and the space stripped is the numeral.  The
    property holds for every [float] that reads the numeral of such a
    size as a value whose product with 1 converts to that size. *)
Theorem parse_size_reads_back_bytes
  (PyFloat : Type) (to_float : string -> option PyFloat)
  (int_of_product : PyFloat -> Z -> Converted)
  (size_bytes : Z) (value : PyFloat) :
  0 <= size_bytes < 1024 ->
  to_float (str_int size_bytes) = Some value ->
  int_of_product value 1 = Whole size_bytes ->
  parse_size PyFloat to_float int_of_product (format_size size_bytes)
  = Returned size_bytes.
Proof.
  intros Hn Hfloat Hint.
  rewrite (format_size_in_bytes size_bytes Hn).
  destruct (numerals_survive size_bytes Hn) as [Htext Hnumeral].
  unfold parse_size. rewrite Htext.
  assert (Hsplit : (str_int size_bytes ++ " B")%string
                   = ((str_int size_bytes ++ " ") ++ "B")%string)
    by (rewrite string_app_assoc; reflexivity).
  rewrite Hsplit. unfold SizeText.units. cbn [parse_units].
  rewrite (endswith_append (str_int size_bytes ++ " ") "B").
  rewrite (drop_last_append (str_int size_bytes ++ " ") "B").
  now rewrite Hnumeral, Hfloat, Hint.
Qed.

Lemma parse_size_reads_back_bytes_witness :
  parse_size Z decimal_float exact_product (format_size 512) = Returned 512.
Proof.
  apply (parse_size_reads_back_bytes Z decimal_float exact_product 512 512).
  - lia.
  - reflexivity.
  - reflexivity.
Defined.

(** [parse_size] does not read back what [format_size] prints from 1024
    bytes on: it returns [0].  The text ends in KB, MB, GB or TB, the
    entry [B] of the table is the one taken, and what is left ends in
    the letter of the unit.  The property holds for every [float] that,
    like Python's, accepts no text ending in K, M, G or T. *)
Theorem parse_size_loses_formatted_size
  (PyFloat : Type) (to_float : string -> option PyFloat)
  (int_of_product : PyFloat -> Z -> Converted)
  (size_bytes : Z) :
  (forall (s : string) (c : ascii),
      In c ["K"; "M"; "G"; "T"]%char ->
      to_float (s ++ String c "")%string = None) ->
  1024 <= size_bytes <= 2 ^ 53 ->
  parse_size PyFloat to_float int_of_product (format_size size_bytes)
  = Returned 0.
Proof.
  intros Hfloat [Hlow _].
  destruct (unit_reached size_bytes Hlow) as [k [Hk [Hk1 Hk2]]].
  rewrite (format_size_in_unit size_bytes k Hk Hk1 Hk2).
  destruct (larger_unit k Hk) as [letter [Hletter ->]].
  set (number := format_2f (after_turns size_bytes k)).
  assert (Hsp : is_space letter = false).
  { destruct Hletter as [<- | [<- | [<- | [<- | []]]]]; reflexivity. }
  assert (Hup : upper (String letter "B") = String letter "B").
  { destruct Hletter as [<- | [<- | [<- | [<- | []]]]]; reflexivity. }
  assert (E : (number ++ " " ++ String letter "B")%string
              = ((number ++ " ") ++ String letter (String "B" ""))%string)
    by (rewrite string_app_assoc; reflexivity).
  rewrite E. unfold parse_size.
  destruct (strip_keeps_unit (number ++ " ") letter "B" Hsp eq_refl)
    as [s' ->].
  rewrite upper_append, Hup.
  assert (Hsplit : (upper s' ++ String letter "B")%string
                   = ((upper s' ++ String letter "") ++ "B")%string)
    by (rewrite string_app_assoc; reflexivity).
  rewrite Hsplit. unfold SizeText.units. cbn [parse_units].
  rewrite (endswith_append (upper s' ++ String letter "") "B").
  rewrite (drop_last_append (upper s' ++ String letter "") "B").
  destruct (strip_keeps_end (upper s') letter Hsp) as [s'' ->].
  now rewrite (Hfloat s'' letter Hletter).
Qed.

Lemma parse_size_loses_formatted_size_witness :
  parse_size Z decimal_float exact_product (format_size 1536) = Returned 0.
Proof.
  apply (parse_size_loses_formatted_size Z decimal_float exact_product 1536).
  - apply decimal_float_refuses_letters.
  - lia.
Defined.

End Printing.

(* ===================================================================== *)
(** * Cleaning twice *)
(* ===================================================================== *)

Section Whole.

















End Whole.

Section Again.

Variable self : WindowsCleaner.




End Again.




(* ===================================================================== *)
(** * A directory that refuses to be listed *)
(* ===================================================================== *)

(** The scan of the temp directory passes over the directory it cannot
    list: the file in it is not found. *)
Example closed_directory_is_passed_over :
  scan_category Scenario.cleaner Machines.temp_with_closed_dir "temp_user"
  = Ok ([Scenario.temp_file "open.tmp"], 10).
Proof. vm_compute. reflexivity. Qed.

(** Removing the temp directory as a whole takes away the file that can
    be reached, and fails: the closed directory and its file stay. *)
Example closed_directory_stays :
  fst (safe_remove_dir Machines.temp_with_closed_dir
         (temp_dir Scenario.cleaner))
  = Ok false /\
  lookup (snd (safe_remove_dir Machines.temp_with_closed_dir
                 (temp_dir Scenario.cleaner)))
         (Scenario.temp_file "open.tmp") = None /\
  present (snd (safe_remove_dir Machines.temp_with_closed_dir
                  (temp_dir Scenario.cleaner)))
          (Scenario.temp_file "closed" </> "inner.tmp").
Proof. repeat split; vm_compute; congruence. Qed.

(** The closed directory cannot be cleaned while it holds its file, and
    can once the file, named by its path, has been removed. *)
Example closed_directory_is_cleaned_last :
  fst (clean_files Scenario.cleaner Machines.temp_with_closed_dir
         [Scenario.temp_file "closed"])
  = mkCounters 0 0 1 /\
  fst (clean_files Scenario.cleaner Machines.temp_with_closed_dir
         [Scenario.temp_file "closed" </> "inner.tmp";
          Scenario.temp_file "closed"])
  = mkCounters 2 20 0.
Proof. split; vm_compute; reflexivity. Qed.
